(** * deleter: retention-based pruning of dated directory trees

    A shallow embedding of [deleter.go] and of the parts of the Go
    standard library it calls ([strings.Split], [strconv.ParseInt],
    [time.Date], [time.Time.AddDate], [filepath.Walk], [os.RemoveAll]),
    followed by the properties of the program that the specification
    states.

    Conventions.
    - A Go [int] is a [Z] in the range of [int64]; additions written in
      the program wrap around ([GoInt.add]).
    - A [time.Time] is the number of nanoseconds since the Unix epoch; a
      [time.Location] is a fixed offset from UTC ([time.Local] is a
      parameter of the development).
    - The file system is a finite table from clean path strings to file
      information, listed in the order in which a directory read reports
      its entries.
    - Logging calls and the calls of [os.RemoveAll] are collected in a
      trace of events, in program order.
    - A run-time panic is an error value that unwinds the walk. *)

From Stdlib Require Import ZArith Lia Ascii String List Bool.
From stdpp Require Import gmap strings list.

Local Open Scope Z_scope.

(* ===================================================================== *)
(** ** Go [int] *)
(* ===================================================================== *)

Module GoInt.

Definition maxInt : Z := 2 ^ 63 - 1.
Definition minInt : Z := - 2 ^ 63.

(** Two's complement wrap-around of a 64-bit signed integer. *)
Definition wrap (z : Z) : Z := (z + 2 ^ 63) mod 2 ^ 64 - 2 ^ 63.

Definition add (a b : Z) : Z := wrap (a + b).
Definition mul (a b : Z) : Z := wrap (a * b).

Definition inRange (z : Z) : Prop := minInt <= z <= maxInt.

End GoInt.

(* ===================================================================== *)
(** ** [strings.Split] with a one-byte separator, and [os.PathSeparator] *)
(* ===================================================================== *)

Definition PathSeparator : ascii := "/"%char.

Module Strings.

(** [strings.Split(s, string(sep))]: the pieces of [s] between the
    occurrences of [sep]; the empty string gives one empty piece. *)
Fixpoint Split (s : string) (sep : ascii) : list string :=
  match s with
  | EmptyString => [EmptyString]
  | String c rest =>
      if Ascii.eqb c sep then EmptyString :: Split rest sep
      else match Split rest sep with
           | [] => [String c EmptyString]
           | piece :: pieces => String c piece :: pieces
           end
  end.

(** No occurrence of the byte [sep] in [s]. *)
Fixpoint free_of (sep : ascii) (s : string) : bool :=
  match s with
  | EmptyString => true
  | String c rest => negb (Ascii.eqb c sep) && free_of sep rest
  end.

End Strings.

(* ===================================================================== *)
(** ** [strconv.ParseInt(s, 10, 0)] *)
(* ===================================================================== *)

Module Strconv.

Inductive NumError : Set := ErrSyntax | ErrRange.

Definition maxUint64 : Z := 2 ^ 64 - 1.

(** The value of a decimal digit byte. *)
Definition digit (c : ascii) : option Z :=
  let n := Z.of_N (N_of_ascii c) in
  if (48 <=? n) && (n <=? 57) then Some (n - 48) else None.

(** The loop of [ParseUint] in base 10 at 64 bits: a byte that is no
    decimal digit is a syntax error; a value that leaves [uint64] is a
    range error, reported as soon as it is seen. *)
Fixpoint parseLoop (n : Z) (s : string) : Z + NumError :=
  match s with
  | EmptyString => inl n
  | String c rest =>
      match digit c with
      | None => inr ErrSyntax
      | Some d =>
          if maxUint64 / 10 + 1 <=? n then inr ErrRange
          else
            let n1 := n * 10 + d in
            if maxUint64 <? n1 then inr ErrRange else parseLoop n1 rest
      end
  end.

Definition ParseUint (s : string) : Z + NumError :=
  match s with
  | EmptyString => inr ErrSyntax
  | _ => parseLoop 0 s
  end.

(** [ParseInt(s, 10, 0)]: an optional sign, then [ParseUint]; the result
    must fit [int] (64 bits). *)
Definition ParseInt (s : string) : Z + NumError :=
  match s with
  | EmptyString => inr ErrSyntax
  | String c rest =>
      let '(neg, body) :=
        if Ascii.eqb c "+" then (false, rest)
        else if Ascii.eqb c "-" then (true, rest)
        else (false, s) in
      match ParseUint body with
      | inr ErrSyntax => inr ErrSyntax
      | inr ErrRange => inr ErrRange
      | inl un =>
          let cutoff := 2 ^ 63 in
          if negb neg && (cutoff <=? un) then inr ErrRange
          else if neg && (cutoff <? un) then inr ErrRange
          else inl (if neg then - un else un)
      end
  end.

End Strconv.

(* ===================================================================== *)
(** ** Package [time] *)
(* ===================================================================== *)

Module Time.

(** An instant: nanoseconds since 1970-01-01T00:00:00Z. *)
Definition Time : Type := Z.
Definition Duration : Type := Z.

Definition Second : Duration := 1000000000.

(** A location with a fixed offset, in seconds east of UTC. *)
Record Location : Set := { offset : Z }.

Definition UTC : Location := {| offset := 0 |}.

(** [norm] of time.go: carries [lo] into [hi] so that [0 <= lo < base].
    Go's [/] truncates; both dividends are non-negative here. *)
Definition norm (hi lo base : Z) : Z * Z :=
  let '(hi, lo) :=
    if lo <? 0 then
      let n := Z.quot (- lo - 1) base + 1 in (hi - n, lo + n * base)
    else (hi, lo) in
  if base <=? lo then
    let n := Z.quot lo base in (hi + n, lo - n * base)
  else (hi, lo).

Definition isLeap (year : Z) : bool :=
  (Z.rem year 4 =? 0) && (negb (Z.rem year 100 =? 0) || (Z.rem year 400 =? 0)).

(** [daysBefore[m]]: days of a non-leap year before month [m+1]. *)
Definition daysBefore (m : Z) : Z :=
  nth (Z.to_nat m) [0; 31; 59; 90; 120; 151; 181; 212; 243; 273; 304; 334; 365] 0.

(** Days from 1970-01-01 to January 1 of [year] in the proleptic
    Gregorian calendar. *)
Definition daysSinceEpoch (year : Z) : Z :=
  let y := year - 1 in
  365 * y + y / 4 - y / 100 + y / 400 - 719162.

(** [time.Date]: the instant of a wall-clock reading in [loc]; fields
    outside their usual ranges are normalised (October 32 is
    November 1, month 0 is December of the year before, day 0 is the
    last day of the month before). Go counts the seconds in an [int64]
    and wraps around some 292 thousand million years from the year 1;
    the instants here are exact integers, and agree with Go's for the
    dates that do not come near that limit. *)
Definition Date (year month day hour min sec nsec : Z) (loc : Location) : Time :=
  let m := month - 1 in
  let '(year, m) := norm year m 12 in
  let month := m + 1 in
  let '(sec, nsec) := norm sec nsec 1000000000 in
  let '(min, sec) := norm min sec 60 in
  let '(hour, min) := norm hour min 60 in
  let '(day, hour) := norm day hour 24 in
  let d := daysSinceEpoch year + daysBefore (month - 1)
           + (if isLeap year && (3 <=? month) then 1 else 0)
           + (day - 1) in
  let abs := d * 86400 + hour * 3600 + min * 60 + sec in
  let unix := abs - offset loc in
  unix * 1000000000 + nsec.

(** [t.Add(d)] and [t.Before(u)]. *)
Definition Add (t : Time) (d : Duration) : Time := t + d.
Definition Before (t u : Time) : bool := t <? u.

(** The calendar date of a day number counted from 1970-01-01. *)
Definition civil (days : Z) : Z * Z * Z :=
  let z := days + 719468 in
  let era := z / 146097 in
  let doe := z - era * 146097 in
  let yoe := (doe - doe / 1460 + doe / 36524 - doe / 146096) / 365 in
  let doy := doe - (365 * yoe + yoe / 4 - yoe / 100) in
  let mp := (5 * doy + 2) / 153 in
  let d := doy - (153 * mp + 2) / 5 + 1 in
  let m := if mp <? 10 then mp + 3 else mp - 9 in
  let y := yoe + era * 400 + (if m <=? 2 then 1 else 0) in
  (y, m, d).

(** [t.AddDate(years, months, days)] for a time [t] kept in [loc]: the
    date and clock of [t] are read in [loc], the amounts are added to
    the fields and [Date] normalises the result. *)
Definition AddDate (loc : Location) (t : Time) (years months days : Z) : Time :=
  let unix := t / 1000000000 in
  let nsec := t mod 1000000000 in
  let abs := unix + offset loc in
  let '(year, month, day) := civil (abs / 86400) in
  let s := abs mod 86400 in
  let hour := s / 3600 in
  let min := (s mod 3600) / 60 in
  let sec := s mod 60 in
  Date (year + years) (month + months) (day + days) hour min sec nsec loc.

End Time.

(* ===================================================================== *)
(** ** The date a directory stands for *)
(* ===================================================================== *)

Section PathDate.

(** [time.Local] of the process. *)
Variable Local : Time.Location.

(** [pathArray[i]]; [None] is the index-out-of-range panic. *)
Definition index (pathArray : list string) (i : Z) : option string :=
  if i <? 0 then None else pathArray !! Z.to_nat i.

Definition getDatePiece (pathArray : list string) (baseLen idx : Z) : option Z :=
  match index pathArray (GoInt.add baseLen idx) with
  | None => None
  | Some piece =>
      match Strconv.ParseInt piece with
      | inl dirAge => Some dirAge
      | inr _ => Some 0
      end
  end.

(** [getCompareDate]; [now] is what [time.Now()] returns when it is
    called; [None] is a panic. *)
Definition getCompareDate (now : Time.Time) (path : string) (baseLen : Z)
  : option Time.Time :=
  let pathArray := Strings.Split path PathSeparator in
  let pathLen := Z.of_nat (length pathArray) in
  if pathLen <? GoInt.add baseLen 2 then Some now else
  match getDatePiece pathArray baseLen 1 with None => None | Some year =>
  if pathLen <? GoInt.add baseLen 3 then
    Some (Time.Add (Time.Date (GoInt.add year 1) 0 0 0 0 0 0 Local)
                   (GoInt.mul (-1) Time.Second)) else
  match getDatePiece pathArray baseLen 2 with None => None | Some month =>
  if pathLen <? GoInt.add baseLen 4 then
    Some (Time.Add (Time.Date year (GoInt.add month 1) 0 0 0 0 0 Local)
                   (GoInt.mul (-1) Time.Second)) else
  match getDatePiece pathArray baseLen 3 with None => None | Some day =>
  if pathLen <? GoInt.add baseLen 5 then
    Some (Time.Add (Time.Date year month (GoInt.add day 1) 0 0 0 0 Local)
                   (GoInt.mul (-1) Time.Second)) else
  match getDatePiece pathArray baseLen 4 with None => None | Some hour =>
  if pathLen <? GoInt.add baseLen 6 then
    Some (Time.Add (Time.Date year month day (GoInt.add hour 1) 0 0 0 Local)
                   (GoInt.mul (-1) Time.Second)) else
  match getDatePiece pathArray baseLen 5 with None => None | Some min =>
    Some (Time.Add (Time.Date year month day hour (GoInt.add min 1) 0 0 Local)
                   (GoInt.mul (-1) Time.Second))
  end end end end end.

End PathDate.

(* ===================================================================== *)
(** ** Errors, the file table and package [os] *)
(* ===================================================================== *)

(** Values of Go's [error] that the program can meet. [RuntimePanic]
    stands for a panic on its way up the stack, [Exhausted] for a walk
    that was cut short by its recursion bound. *)
Inductive error : Set :=
| ENOENT | ENOTDIR | EACCES
| SkipDir | SkipAll
| RuntimePanic
| Exhausted.

Definition error_eqb (a b : error) : bool :=
  match a, b with
  | ENOENT, ENOENT | ENOTDIR, ENOTDIR | EACCES, EACCES
  | SkipDir, SkipDir | SkipAll, SkipAll
  | RuntimePanic, RuntimePanic | Exhausted, Exhausted => true
  | _, _ => false
  end.

Module Filepath.

Fixpoint endsWithSeparator (s : string) : bool :=
  match s with
  | EmptyString => false
  | String c EmptyString => Ascii.eqb c PathSeparator
  | String _ rest => endsWithSeparator rest
  end.

(** What precedes the name of an entry of directory [dir]. *)
Definition dirPrefix (dir : string) : string :=
  if endsWithSeparator dir then dir
  else match dir with
       | EmptyString => EmptyString
       | _ => dir +:+ String PathSeparator EmptyString
       end.

(** [filepath.Join(dir, name)] for a clean [dir] and a plain [name]. *)
Definition Join (dir name : string) : string := dirPrefix dir +:+ name.

End Filepath.

Module Os.

Record FileInfo : Set := { Name : string; IsDir : bool }.

(** What the table records of a path: whether it is a directory, and
    whether reading or removing it is refused. *)
Record Node : Set := { dir : bool; locked : bool }.

Definition Table : Set := list (string * Node).

Fixpoint find (fs : Table) (path : string) : option Node :=
  match fs with
  | [] => None
  | (q, n) :: rest => if String.eqb q path then Some n else find rest path
  end.

(** [strip p q]: [q] without its prefix [p]. *)
Fixpoint strip (p q : string) : option string :=
  match p with
  | EmptyString => Some q
  | String a p' =>
      match q with
      | EmptyString => None
      | String b q' => if Ascii.eqb a b then strip p' q' else None
      end
  end.

Definition base (path : string) : string :=
  List.last (Strings.Split path PathSeparator) EmptyString.

Definition Lstat (fs : Table) (path : string) : FileInfo + error :=
  match find fs path with
  | None => inr ENOENT
  | Some n => inl {| Name := base path; IsDir := dir n |}
  end.

(** The name under which [q] is an entry of directory [d], if it is. *)
Definition childName (d q : string) : option string :=
  match strip (Filepath.dirPrefix d) q with
  | Some name =>
      match name with
      | EmptyString => None
      | _ => if Strings.free_of PathSeparator name then Some name else None
      end
  | None => None
  end.

Fixpoint entries (d : string) (fs : Table) : list FileInfo :=
  match fs with
  | [] => []
  | (q, n) :: rest =>
      match childName d q with
      | Some name => {| Name := name; IsDir := dir n |} :: entries d rest
      | None => entries d rest
      end
  end.

(** [ioutil.ReadDir(dirname)]. *)
Definition ReadDir (fs : Table) (dirname : string) : list FileInfo + error :=
  match find fs dirname with
  | None => inr ENOENT
  | Some n =>
      if negb (dir n) then inr ENOTDIR
      else if locked n then inr EACCES
      else inl (entries dirname fs)
  end.

(** [q] is [path] or lies below it. *)
Definition within (path q : string) : bool :=
  String.eqb q path || String.prefix (Filepath.dirPrefix path) q.

(** [os.RemoveAll(path)]: [path] and all below it leave the table; a
    missing [path] is no error. A locked entry in the way makes the call
    fail; what a failed call has removed by then is not modelled. *)
Definition RemoveAll (fs : Table) (path : string) : Table * option error :=
  match path with
  | EmptyString => (fs, None)
  | _ =>
      if existsb (fun e => within path (fst e) && locked (snd e)) fs
      then (fs, Some EACCES)
      else (List.filter (fun e => negb (within path (fst e))) fs, None)
  end.

(** The longest path of the table. *)
Definition maxLen (fs : Table) : nat :=
  fold_right (fun e m => Nat.max (String.length (fst e)) m) 0%nat fs.

End Os.

(* ===================================================================== *)
(** ** The world, events, and [filepath.Walk] *)
(* ===================================================================== *)

Record World : Type := { fs : Os.Table; clock : Time.Time }.

Record CompanyConfig : Set :=
  { Id : string; Name : string; Retention : string }.

Record Config : Set :=
  { DefaultConfig : CompanyConfig; CompanyConfigs : list CompanyConfig }.

Inductive event : Type :=
| ConfigIs (config : Config)
| CompanyConfigIs (companyConfig : CompanyConfig)
| FatalBaseDir (e : error)
| WalkFound (path : string)
| ErrorInPath (path : string) (e : error)
| DirTime (compareDate deleteTime : Time.Time)
| Removing (path : string)
| OsRemoveAll (path : string)
| ErrorRemoving (path : string) (e : error)
| RetentionNotNumber (retention name id : string)
| ErrorWalking (fileName : string) (e : error).

(** What a step leaves: the world after it, the events it emitted, and
    its [error] result. *)
Definition Step : Type := World * list event * option error.

Definition WalkFunc : Type :=
  string -> option Os.FileInfo -> option error -> World -> Step.

Section Walk.

Variable walkFn : WalkFunc.

Definition readDirNames (w : World) (dirname : string) : list string + error :=
  match Os.ReadDir (fs w) dirname with
  | inl infos => inl (map Os.Name infos)
  | inr e => inr e
  end.

(** The loop of [walk] over the names of a directory, with the recursive
    call as a parameter. *)
Fixpoint walkNames (walkRec : string -> Os.FileInfo -> World -> Step)
    (path : string) (names : list string) (w : World) : Step :=
  match names with
  | [] => (w, [], None)
  | name :: rest =>
      let filename := Filepath.Join path name in
      match Os.Lstat (fs w) filename with
      | inr e =>
          let '(w1, t1, r) := walkFn filename None (Some e) w in
          match r with
          | Some e1 =>
              if error_eqb e1 SkipDir then
                let '(w2, t2, r2) := walkNames walkRec path rest w1 in
                (w2, t1 ++ t2, r2)
              else (w1, t1, Some e1)
          | None =>
              let '(w2, t2, r2) := walkNames walkRec path rest w1 in
              (w2, t1 ++ t2, r2)
          end
      | inl fileInfo =>
          let '(w1, t1, r) := walkRec filename fileInfo w in
          match r with
          | Some e1 =>
              if negb (Os.IsDir fileInfo) || negb (error_eqb e1 SkipDir)
              then (w1, t1, Some e1)
              else
                let '(w2, t2, r2) := walkNames walkRec path rest w1 in
                (w2, t1 ++ t2, r2)
          | None =>
              let '(w2, t2, r2) := walkNames walkRec path rest w1 in
              (w2, t1 ++ t2, r2)
          end
      end
  end.

(** [walk] of path/filepath: the names of a directory are read before
    [walkFn] is called on it, and each name is looked up again when its
    turn comes. [fuel] bounds the depth of the recursion. *)
Fixpoint walk (fuel : nat) (path : string) (info : Os.FileInfo) (w : World) : Step :=
  match fuel with
  | O => (w, [], Some Exhausted)
  | S fuel' =>
      if negb (Os.IsDir info) then walkFn path (Some info) None w
      else
        let names := readDirNames w path in
        let err := match names with inl _ => None | inr e => Some e end in
        let '(w1, t1, err1) := walkFn path (Some info) err w in
        match names, err1 with
        | inl names, None =>
            let '(w2, t2, r2) := walkNames (walk fuel') path names w1 in
            (w2, t1 ++ t2, r2)
        | _, _ => (w1, t1, err1)
        end
  end.

(** The order of [walk] in the older releases of path/filepath:
    [walkFn] is called on a directory first and its names are read
    afterwards; when that read fails the directory is handed to [walkFn]
    a second time, with the error. *)
Fixpoint walkLegacy (fuel : nat) (path : string) (info : Os.FileInfo)
    (w : World) : Step :=
  match fuel with
  | O => (w, [], Some Exhausted)
  | S fuel' =>
      let '(w1, t1, err) := walkFn path (Some info) None w in
      match err with
      | Some e =>
          if Os.IsDir info && error_eqb e SkipDir then (w1, t1, None)
          else (w1, t1, Some e)
      | None =>
          if negb (Os.IsDir info) then (w1, t1, None)
          else
            match readDirNames w1 path with
            | inr e =>
                let '(w2, t2, r2) := walkFn path (Some info) (Some e) w1 in
                (w2, t1 ++ t2, r2)
            | inl names =>
                let '(w2, t2, r2) :=
                  walkNames (walkLegacy fuel') path names w1 in
                (w2, t1 ++ t2, r2)
            end
      end
  end.

(** [filepath.Walk(root, walkFn)]. No path of the table is longer than
    [Os.maxLen], so the recursion is never deeper than that. *)
Definition Walk (root : string) (w : World) : Step :=
  let '(w1, t1, err) :=
    match Os.Lstat (fs w) root with
    | inr e => walkFn root None (Some e) w
    | inl info => walk (S (Os.maxLen (fs w))) root info w
    end in
  match err with
  | Some SkipDir | Some SkipAll => (w1, t1, None)
  | _ => (w1, t1, err)
  end.

End Walk.

(* ===================================================================== *)
(** ** The program *)
(* ===================================================================== *)

Definition convertConfigToMap (config : Config) : gmap string CompanyConfig :=
  foldl (fun configMap entry => <[Id entry := entry]> configMap)
        (<["default" := DefaultConfig config]> ∅)
        (CompanyConfigs config).

(** How a goroutine ends. *)
Inductive outcome : Set := Returned | Crashed.

Section Program.

Variable Local : Time.Location.

(** How far the clock has moved on when it is read the next time. *)
Variable tick : Time.Time -> Time.Time.

Definition elapse (w : World) : World :=
  {| fs := fs w; clock := tick (clock w) |}.

(** The function literal that [pruneSingleCompanyDir] hands to
    [filepath.Walk]. *)
Definition visit (deleteTime : Time.Time) (baseLen : Z) : WalkFunc :=
  fun path f err w =>
    match err with
    | Some e => (w, [WalkFound path; ErrorInPath path e], None)
    | None =>
        match f with
        | None => (w, [WalkFound path], Some RuntimePanic)
        | Some f =>
            if negb (Os.IsDir f) then (w, [WalkFound path], None)
            else
              match getCompareDate Local (clock w) path baseLen with
              | None => (elapse w, [WalkFound path], Some RuntimePanic)
              | Some compareDate =>
                  if Time.Before compareDate deleteTime then
                    let '(fs', removeErr) := Os.RemoveAll (fs w) path in
                    ({| fs := fs'; clock := tick (clock w) |},
                     [WalkFound path; DirTime compareDate deleteTime;
                      Removing path; OsRemoveAll path]
                     ++ match removeErr with
                        | Some e => [ErrorRemoving path e]
                        | None => []
                        end,
                     None)
                  else
                    (elapse w,
                     [WalkFound path; DirTime compareDate deleteTime], None)
              end
        end
    end.

Definition pruneSingleCompanyDir (fileName : string) (config : CompanyConfig)
    (currTime : Time.Time) (w : World) : World * list event * outcome :=
  match Strconv.ParseInt (Retention config) with
  | inr _ =>
      (w, [RetentionNotNumber (Retention config) (Name config) (Id config)],
       Returned)
  | inl retentionDays =>
      let deleteTime :=
        Time.AddDate Time.UTC currTime 0 0 (GoInt.mul (-1) retentionDays) in
      let baseLen :=
        Z.of_nat (length (Strings.Split fileName PathSeparator)) in
      let '(w1, t1, err) := Walk (visit deleteTime baseLen) fileName w in
      match err with
      | None => (w1, t1, Returned)
      | Some RuntimePanic => (w1, t1, Crashed)
      | Some e => (w1, t1 ++ [ErrorWalking fileName e], Returned)
      end
  end.

(** The configuration [main] picks for the directory [name]: its own
    entry of the map, else the entry under "default" (a key that is not
    in a Go map reads as the zero value). *)
Definition companyConfigFor (configMap : gmap string CompanyConfig)
    (name : string) : CompanyConfig :=
  match configMap !! name with
  | Some companyConfig => companyConfig
  | None => default {| Id := ""; Name := ""; Retention := "" |}
                    (configMap !! "default")
  end.

(** A goroutine that [main] has started. *)
Record task : Set := { taskDir : string; taskConfig : CompanyConfig }.

(** The loop of [main] over the entries of the base directory: the
    events it logs and the goroutines it starts. *)
Fixpoint launch (configMap : gmap string CompanyConfig) (baseDir : string)
    (companyDirs : list Os.FileInfo) : list event * list task :=
  match companyDirs with
  | [] => ([], [])
  | entry :: rest =>
      let '(t, tasks) := launch configMap baseDir rest in
      if Os.IsDir entry then
        let companyConfig := companyConfigFor configMap (Os.Name entry) in
        (CompanyConfigIs companyConfig :: t,
         {| taskDir := Filepath.Join baseDir (Os.Name entry);
            taskConfig := companyConfig |} :: tasks)
      else (t, tasks)
  end.

(** The goroutines run to their end one after the other, in the order
    of the list; a panic in one ends the process. *)
Fixpoint runAll (tasks : list task) (currTime : Time.Time) (w : World)
  : World * list event * outcome :=
  match tasks with
  | [] => (w, [], Returned)
  | t :: rest =>
      let '(w1, t1, o) :=
        pruneSingleCompanyDir (taskDir t) (taskConfig t) currTime w in
      match o with
      | Crashed => (w1, t1, Crashed)
      | Returned =>
          let '(w2, t2, o2) := runAll rest currTime w1 in
          (w2, t1 ++ t2, o2)
      end
  end.

(** How the process ends. *)
Inductive exit : Set := ExitOk | ExitFatal | ExitPanic.

(** [main], from the configuration that [readConfig] returned and the
    value of the flag [baseDir]. *)
Definition main (config : Config) (baseDir : string) (w : World)
  : World * list event * exit :=
  let configMap := convertConfigToMap config in
  let currTime := clock w in
  let w := elapse w in
  match Os.ReadDir (fs w) baseDir with
  | inr e => (w, [ConfigIs config; FatalBaseDir e], ExitFatal)
  | inl companyDirs =>
      let '(t0, tasks) := launch configMap baseDir companyDirs in
      let '(w1, t1, o) := runAll tasks currTime w in
      (w1, ConfigIs config :: t0 ++ t1,
       match o with Returned => ExitOk | Crashed => ExitPanic end)
  end.

End Program.

(* ===================================================================== *)
(** ** What the specification calls an integer *)
(* ===================================================================== *)

(** The number that a string of decimal digits writes, read from the
    left with [acc] as the value so far; [None] when a byte is no
    digit. *)
Fixpoint decimalValue (acc : Z) (s : string) : option Z :=
  match s with
  | EmptyString => Some acc
  | String c rest =>
      match Strconv.digit c with
      | Some d => decimalValue (acc * 10 + d) rest
      | None => None
      end
  end.

(** [s] writes the integer [n]: an optional sign, then at least one
    decimal digit. *)
Definition denotesInteger (s : string) (n : Z) : Prop :=
  exists (sign body : string) (m : Z),
    s = sign +:+ body /\
    (sign = "" \/ sign = "+" \/ sign = "-") /\
    body <> "" /\
    decimalValue 0 body = Some m /\
    n = (if String.eqb sign "-" then - m else m).

(* ===================================================================== *)
(** ** Notions used in the statements *)
(* ===================================================================== *)

(** The wall-clock seconds of a normalised year and month, as [Date]
    counts them. *)
Definition monthStart (year month : Z) : Z :=
  let y := year + (month - 1) / 12 in
  let m := (month - 1) mod 12 + 1 in
  (Time.daysSinceEpoch y + Time.daysBefore (m - 1)
   + (if Time.isLeap y && (3 <=? m) then 1 else 0)) * 86400.

(** The number a piece stands for. *)
Definition pieceValue (piece : string) : Z :=
  match Strconv.ParseInt piece with inl v => v | inr _ => 0 end.

(** A base length that leaves room for the five dated segments. *)
Definition roomy (baseLen : Z) : Prop := 0 <= baseLen <= GoInt.maxInt - 6.

(** The two events of a visit that is handed an error. *)
Definition reported (path : string) (e : error) : list event :=
  [WalkFound path; ErrorInPath path e].

(** A step that neither lengthens the longest path of the table nor
    stops for want of recursion depth. *)
Definition finishes (w : World) (s : Step) : Prop :=
  (Os.maxLen (fs (fst (fst s))) <= Os.maxLen (fs w))%nat /\
  snd s <> Some Exhausted.

Section TraceShape.

Variable Local : Time.Location.
Variable deleteTime : Time.Time.
Variable baseLen : Z.

(** What one call of the function literal, or the report of a failed
    walk, adds to the trace. *)
Inductive block : list event -> Prop :=
| block_error p e : block [WalkFound p; ErrorInPath p e]
| block_bare p : block [WalkFound p]
| block_kept p c now :
    getCompareDate Local now p baseLen = Some c ->
    ~ c < deleteTime ->
    block [WalkFound p; DirTime c deleteTime]
| block_removed p c now :
    getCompareDate Local now p baseLen = Some c ->
    c < deleteTime ->
    block [WalkFound p; DirTime c deleteTime; Removing p; OsRemoveAll p]
| block_remove_failed p c now e :
    getCompareDate Local now p baseLen = Some c ->
    c < deleteTime ->
    block [WalkFound p; DirTime c deleteTime; Removing p; OsRemoveAll p;
           ErrorRemoving p e]
| block_walk_error fileName e : block [ErrorWalking fileName e].

Inductive blocks : list event -> Prop :=
| blocks_nil : blocks []
| blocks_cons b l : block b -> blocks l -> blocks (b ++ l).

End TraceShape.

(** The decisions that a trace records: each [DirTime] event follows the
    [WalkFound] event of a directory [p], carries the date of [p] and the
    deletion time, and is followed by the removal of [p] exactly when the
    date is before the deletion time; and [os.RemoveAll] is called in no
    other place. *)
Definition decidesByBoundary (Local : Time.Location) (baseLen : Z)
    (deleteTime : Time.Time) (tr : list event) : Prop :=
  (forall pre c d post,
      tr = pre ++ DirTime c d :: post ->
      exists pre' p,
        pre = pre' ++ [WalkFound p] /\
        d = deleteTime /\
        (exists now, getCompareDate Local now p baseLen = Some c) /\
        (c < d <-> exists post', post = Removing p :: OsRemoveAll p :: post')) /\
  (forall pre p post,
      tr = pre ++ OsRemoveAll p :: post ->
      exists pre' c now,
        pre = pre' ++ [WalkFound p; DirTime c deleteTime; Removing p] /\
        getCompareDate Local now p baseLen = Some c /\
        c < deleteTime).

(** The table of [w] holds nothing but what the table of [w0] holds: a
    path has in [w] the node it has in [w0], or it is gone. *)
Definition restricts (w0 w : World) : Prop :=
  forall q, Os.find (fs w) q = Os.find (fs w0) q \/ Os.find (fs w) q = None.

(** Every visit that the trace records is of one of three kinds: the
    function literal was handed an error for [p]; or [p] is a plain
    file of the table, and no date is compared; or [p] is a directory of
    the table and its date is compared with the deletion time right
    after the visit begins. *)
Definition comparesEveryDirectory (table : Os.Table) (deleteTime : Time.Time)
    (tr : list event) : Prop :=
  forall pre p post,
    tr = pre ++ WalkFound p :: post ->
    (exists e post', post = ErrorInPath p e :: post') \/
    (exists n, Os.find table p = Some n /\ Os.dir n = false /\
               forall c d post', post <> DirTime c d :: post') \/
    (exists n c post',
        Os.find table p = Some n /\ Os.dir n = true /\
        post = DirTime c deleteTime :: post').

(** What lies under no path that [os.RemoveAll] was called on is in the
    table of [we] as it is in the table of [ws]. *)
Definition keepsTheRest (ws : World) (tr : list event) (we : World) : Prop :=
  forall q,
    (forall p, In (OsRemoveAll p) tr -> Os.within p q = false) ->
    Os.find (fs we) q = Os.find (fs ws) q.

(** A call of [os.RemoveAll] that the trace does not report as failed
    has emptied the table of its path and of all below it. *)
Definition removesForGood (tr : list event) (we : World) : Prop :=
  forall pre p post,
    tr = pre ++ OsRemoveAll p :: post ->
    p <> EmptyString ->
    (forall e post', post <> ErrorRemoving p e :: post') ->
    forall q, Os.within p q = true -> Os.find (fs we) q = None.

(** A part of a walk that starts in [ws], emits [tr] and ends in [we],
    in a sweep that started with the table [table]. *)
Definition sweeps (table : Os.Table) (deleteTime : Time.Time)
    (ws : World) (tr : list event) (we : World) : Prop :=
  restricts ws we /\
  keepsTheRest ws tr we /\
  comparesEveryDirectory table deleteTime tr /\
  removesForGood tr we /\
  (forall c d post, tr <> DirTime c d :: post).

(** The pieces that a path has in the places of year, month, day, hour
    and minute read as a date and time of the years 0 to 9999. *)
Definition inCalendar (pathArray : list string) (baseLen : Z) : bool :=
  forallb
    (fun '(k, lo, hi) =>
       match pathArray !! Z.to_nat (baseLen + k) with
       | Some piece => (lo <=? pieceValue piece) && (pieceValue piece <=? hi)
       | None => true
       end)
    [(1, 0, 9999); (2, 1, 12); (3, 1, 31); (4, 0, 23); (5, 0, 59)].

(* ===================================================================== *)
(** * The scenario of the specification *)
(* ===================================================================== *)

Module Scenario.

Definition instant (y mo d h mi s : Z) : Time.Time :=
  Time.Date y mo d h mi s 0 Time.UTC.

Definition now : Time.Time := instant 2024 3 15 0 0 0.

(** The deletion time of a tenant that keeps 30 days. *)
Definition cutoff : Time.Time :=
  Time.AddDate Time.UTC now 0 0 (GoInt.mul (-1) 30).

Definition microsecond (t : Time.Time) : Time.Time := t + 1000.

Definition directory : Os.Node := {| Os.dir := true; Os.locked := false |}.
Definition plainFile : Os.Node := {| Os.dir := false; Os.locked := false |}.

Definition acme : CompanyConfig :=
  {| Id := "acme"; Name := "Acme"; Retention := "30" |}.

(** A tenant whose retention is no number. *)
Definition bad : CompanyConfig :=
  {| Id := "bad"; Name := "Bad"; Retention := "abc" |}.

(** A configuration without a default entry, and one in which a listed
    company has the id "default". *)
Definition noDefault : Config :=
  {| DefaultConfig := {| Id := ""; Name := ""; Retention := "" |};
     CompanyConfigs := [acme] |}.

Definition shadowedDefault : Config :=
  {| DefaultConfig := {| Id := ""; Name := ""; Retention := "" |};
     CompanyConfigs :=
       [acme; {| Id := "default"; Name := "Fallback"; Retention := "7" |}] |}.

(** What [Lstat] reports of a directory; its name plays no part. *)
Definition isDirectory : Os.FileInfo := {| Os.Name := "dir"; Os.IsDir := true |}.

(** A world with an empty table at the instant [now]. *)
Definition idle : World := {| fs := []; clock := now |}.

(** The tree of the tenant acme: an old year with a month and a file in
    it, and a day of the current month. *)
Definition acmeTree : Os.Table :=
  [("/data", directory);
   ("/data/acme", directory);
   ("/data/acme/x", directory);
   ("/data/acme/x/2023", directory);
   ("/data/acme/x/2023/12", directory);
   ("/data/acme/x/2023/12/log.txt", plainFile);
   ("/data/acme/x/2024", directory);
   ("/data/acme/x/2024/03", directory);
   ("/data/acme/x/2024/03/14", directory)].

(** The same tree without the old year. *)
Definition acmeTreePruned : Os.Table :=
  [("/data", directory);
   ("/data/acme", directory);
   ("/data/acme/x", directory);
   ("/data/acme/x/2024", directory);
   ("/data/acme/x/2024/03", directory);
   ("/data/acme/x/2024/03/14", directory)].

Definition acmeWorld : World := {| fs := acmeTree; clock := now |}.

End Scenario.

(* ===================================================================== *)
(** * Properties *)
(* ===================================================================== *)

(** ** Integers *)

Lemma wrap_inRange z : GoInt.inRange z -> GoInt.wrap z = z.
Proof.
  unfold GoInt.inRange, GoInt.wrap, GoInt.minInt, GoInt.maxInt. intros H.
  rewrite Z.mod_small by lia. lia.
Qed.

Lemma add_small a b :
  GoInt.minInt <= a + b <= GoInt.maxInt -> GoInt.add a b = a + b.
Proof. intros H. unfold GoInt.add. now apply wrap_inRange. Qed.

Lemma minus_one_second : GoInt.mul (-1) Time.Second = - 1000000000.
Proof. reflexivity. Qed.

(** ** Calendar arithmetic *)

Lemma norm_spec hi lo base :
  0 < base -> Time.norm hi lo base = (hi + lo / base, lo mod base).
Proof.
  intros Hb. unfold Time.norm.
  destruct (Z.ltb_spec lo 0) as [Hneg | Hpos].
  - rewrite Z.quot_div_nonneg by lia.
    set (q := (- lo - 1) / base).
    assert (Hq : base * q <= - lo - 1 < base * q + base).
    { pose proof (Z.div_mod (- lo - 1) base ltac:(lia)) as E.
      pose proof (Z.mod_pos_bound (- lo - 1) base Hb) as B.
      fold q in E. lia. }
    destruct (Z.leb_spec base (lo + (q + 1) * base)) as [H1 | H1]; [nia |].
    assert (Hd : lo / base = - (q + 1)).
    { symmetry. apply (Z.div_unique lo base (- (q + 1)) (lo + (q + 1) * base)); [lia | nia]. }
    assert (Hm : lo mod base = lo + (q + 1) * base).
    { symmetry. apply (Z.mod_unique lo base (- (q + 1)) (lo + (q + 1) * base)); [lia | nia]. }
    rewrite Hd, Hm. f_equal; lia.
  - destruct (Z.leb_spec base lo) as [H1 | H1].
    + rewrite Z.quot_div_nonneg by lia.
      pose proof (Z.div_mod lo base ltac:(lia)) as E.
      rewrite Z.mod_eq by lia. f_equal; lia.
    + rewrite Z.div_small, Z.mod_small by lia. f_equal; lia.
Qed.

(** [Date] is linear in the day, the hour and the minute. *)
Lemma Date_linear year month day hour min loc :
  Time.Date year month day hour min 0 0 loc =
  (monthStart year month + (day - 1) * 86400 + hour * 3600 + min * 60
   - Time.offset loc) * 1000000000.
Proof.
  unfold Time.Date, monthStart.
  rewrite !norm_spec by lia. cbv zeta.
  rewrite (Z.div_small 0), (Z.mod_small 0) by lia.
  rewrite !Z.add_0_r.
  set (m60 := min / 60). set (r60 := min mod 60).
  set (h24 := (hour + m60) / 24). set (r24 := (hour + m60) mod 24).
  pose proof (Z.div_mod min 60 ltac:(lia)) as E1.
  pose proof (Z.div_mod (hour + m60) 24 ltac:(lia)) as E2.
  fold m60 r60 in E1. fold h24 r24 in E2.
  lia.
Qed.

Lemma Date_day_step year month day loc :
  Time.Date year month (day + 1) 0 0 0 0 loc =
  Time.Date year month day 0 0 0 0 loc + 86400 * 1000000000.
Proof. rewrite !Date_linear. lia. Qed.

(** ** Paths and their pieces *)

Lemma Split_not_nil s sep : Strings.Split s sep <> [].
Proof.
  destruct s as [| c s]; simpl; [discriminate |].
  destruct (Ascii.eqb c sep); [discriminate |].
  destruct (Strings.Split s sep); discriminate.
Qed.

Lemma Split_app_sep a b sep :
  Strings.Split (a +:+ String sep b) sep
  = Strings.Split a sep ++ Strings.Split b sep.
Proof.
  induction a as [| c a IH]; simpl.
  - now rewrite Ascii.eqb_refl.
  - destruct (Ascii.eqb c sep); [now rewrite IH |].
    rewrite IH. pose proof (Split_not_nil a sep) as Hne.
    destruct (Strings.Split a sep); [congruence | reflexivity].
Qed.

Lemma Split_free s sep :
  Strings.free_of sep s = true -> Strings.Split s sep = [s].
Proof.
  induction s as [| c s IH]; simpl; [reflexivity |].
  intros H. apply andb_true_iff in H as [Hc Hs].
  apply negb_true_iff in Hc. rewrite Hc, (IH Hs). reflexivity.
Qed.

(** Appending a segment to a path appends one piece. *)
Lemma Split_append_segment path seg :
  Strings.free_of PathSeparator seg = true ->
  Strings.Split (path +:+ String PathSeparator seg) PathSeparator
  = Strings.Split path PathSeparator ++ [seg].
Proof. intros H. now rewrite Split_app_sep, (Split_free _ _ H). Qed.

Lemma getDatePiece_lookup pathArray baseLen idx piece :
  0 <= baseLen + idx <= GoInt.maxInt ->
  pathArray !! Z.to_nat (baseLen + idx) = Some piece ->
  getDatePiece pathArray baseLen idx = Some (pieceValue piece).
Proof.
  intros Hr Hl. unfold getDatePiece, index, pieceValue.
  rewrite add_small by (unfold GoInt.minInt, GoInt.maxInt in *; lia).
  destruct (Z.ltb_spec (baseLen + idx) 0); [lia |].
  rewrite Hl. now destruct (Strconv.ParseInt piece).
Qed.

Lemma getDatePiece_in_range pathArray baseLen idx :
  0 <= baseLen + idx <= GoInt.maxInt ->
  baseLen + idx < Z.of_nat (length pathArray) ->
  exists piece, pathArray !! Z.to_nat (baseLen + idx) = Some piece /\
                getDatePiece pathArray baseLen idx = Some (pieceValue piece).
Proof.
  intros Hr Hlt.
  destruct (lookup_lt_is_Some_2 pathArray (Z.to_nat (baseLen + idx)))
    as [piece Hp]; [lia |].
  exists piece. split; [exact Hp |]. now apply getDatePiece_lookup.
Qed.

Lemma roomy_add baseLen k :
  roomy baseLen -> 0 <= k <= 6 -> GoInt.add baseLen k = baseLen + k.
Proof.
  unfold roomy. intros H Hk. apply add_small.
  unfold GoInt.minInt, GoInt.maxInt in *. lia.
Qed.

Ltac piece_at pathArray baseLen k :=
  let piece := fresh "piece" in
  let Hl := fresh "Hl" in
  let Hg := fresh "Hg" in
  destruct (getDatePiece_in_range pathArray baseLen k) as (piece & Hl & Hg);
  [ unfold roomy, GoInt.maxInt in *; lia | lia | rewrite Hg ].

Lemma getCompareDate_total Local now path baseLen :
  roomy baseLen -> exists t, getCompareDate Local now path baseLen = Some t.
Proof.
  intros Hb. unfold getCompareDate.
  rewrite !(roomy_add baseLen) by (assumption || lia).
  set (pathArray := Strings.Split path PathSeparator).
  destruct (Z.ltb_spec (Z.of_nat (length pathArray)) (baseLen + 2)); [eauto |].
  piece_at pathArray baseLen 1.
  destruct (Z.ltb_spec (Z.of_nat (length pathArray)) (baseLen + 3)); [eauto |].
  piece_at pathArray baseLen 2.
  destruct (Z.ltb_spec (Z.of_nat (length pathArray)) (baseLen + 4)); [eauto |].
  piece_at pathArray baseLen 3.
  destruct (Z.ltb_spec (Z.of_nat (length pathArray)) (baseLen + 5)); [eauto |].
  piece_at pathArray baseLen 4.
  destruct (Z.ltb_spec (Z.of_nat (length pathArray)) (baseLen + 6)); [eauto |].
  piece_at pathArray baseLen 5. eauto.
Qed.

Lemma getCompareDate_short Local now path baseLen :
  roomy baseLen ->
  Z.of_nat (length (Strings.Split path PathSeparator)) < baseLen + 2 ->
  getCompareDate Local now path baseLen = Some now.
Proof.
  intros Hb Hlen. unfold getCompareDate.
  rewrite (roomy_add baseLen 2) by (assumption || lia).
  destruct (Z.ltb_spec (Z.of_nat (length (Strings.Split path PathSeparator)))
                       (baseLen + 2)); [reflexivity | lia].
Qed.

(** The boundary of a path of exactly [baseLen + 4] pieces, and of
    [baseLen + 5] and of [baseLen + 6] pieces. *)
Lemma getCompareDate_day Local now path baseLen py pm pd :
  roomy baseLen ->
  Z.of_nat (length (Strings.Split path PathSeparator)) = baseLen + 4 ->
  Strings.Split path PathSeparator !! Z.to_nat (baseLen + 1) = Some py ->
  Strings.Split path PathSeparator !! Z.to_nat (baseLen + 2) = Some pm ->
  Strings.Split path PathSeparator !! Z.to_nat (baseLen + 3) = Some pd ->
  getCompareDate Local now path baseLen =
  Some (Time.Add (Time.Date (pieceValue py) (pieceValue pm)
                  (GoInt.add (pieceValue pd) 1) 0 0 0 0 Local)
                 (GoInt.mul (-1) Time.Second)).
Proof.
  intros Hb Hlen Hy Hm Hd. unfold getCompareDate.
  rewrite !(roomy_add baseLen) by (assumption || lia).
  assert (Hr : forall k, 0 <= k <= 6 -> 0 <= baseLen + k <= GoInt.maxInt)
    by (unfold roomy, GoInt.maxInt in *; lia).
  rewrite (getDatePiece_lookup _ _ _ _ (Hr 1 ltac:(lia)) Hy).
  rewrite (getDatePiece_lookup _ _ _ _ (Hr 2 ltac:(lia)) Hm).
  rewrite (getDatePiece_lookup _ _ _ _ (Hr 3 ltac:(lia)) Hd).
  rewrite Hlen.
  repeat match goal with
         | |- context [?a <? ?b] => destruct (Z.ltb_spec a b); try lia
         end.
  reflexivity.
Qed.

Lemma getCompareDate_hour Local now path baseLen py pm pd ph :
  roomy baseLen ->
  Z.of_nat (length (Strings.Split path PathSeparator)) = baseLen + 5 ->
  Strings.Split path PathSeparator !! Z.to_nat (baseLen + 1) = Some py ->
  Strings.Split path PathSeparator !! Z.to_nat (baseLen + 2) = Some pm ->
  Strings.Split path PathSeparator !! Z.to_nat (baseLen + 3) = Some pd ->
  Strings.Split path PathSeparator !! Z.to_nat (baseLen + 4) = Some ph ->
  getCompareDate Local now path baseLen =
  Some (Time.Add (Time.Date (pieceValue py) (pieceValue pm) (pieceValue pd)
                  (GoInt.add (pieceValue ph) 1) 0 0 0 Local)
                 (GoInt.mul (-1) Time.Second)).
Proof.
  intros Hb Hlen Hy Hm Hd Hh. unfold getCompareDate.
  rewrite !(roomy_add baseLen) by (assumption || lia).
  assert (Hr : forall k, 0 <= k <= 6 -> 0 <= baseLen + k <= GoInt.maxInt)
    by (unfold roomy, GoInt.maxInt in *; lia).
  rewrite (getDatePiece_lookup _ _ _ _ (Hr 1 ltac:(lia)) Hy).
  rewrite (getDatePiece_lookup _ _ _ _ (Hr 2 ltac:(lia)) Hm).
  rewrite (getDatePiece_lookup _ _ _ _ (Hr 3 ltac:(lia)) Hd).
  rewrite (getDatePiece_lookup _ _ _ _ (Hr 4 ltac:(lia)) Hh).
  rewrite Hlen.
  repeat match goal with
         | |- context [?a <? ?b] => destruct (Z.ltb_spec a b); try lia
         end.
  reflexivity.
Qed.

Lemma getCompareDate_minute Local now path baseLen py pm pd ph pmin :
  roomy baseLen ->
  Z.of_nat (length (Strings.Split path PathSeparator)) = baseLen + 6 ->
  Strings.Split path PathSeparator !! Z.to_nat (baseLen + 1) = Some py ->
  Strings.Split path PathSeparator !! Z.to_nat (baseLen + 2) = Some pm ->
  Strings.Split path PathSeparator !! Z.to_nat (baseLen + 3) = Some pd ->
  Strings.Split path PathSeparator !! Z.to_nat (baseLen + 4) = Some ph ->
  Strings.Split path PathSeparator !! Z.to_nat (baseLen + 5) = Some pmin ->
  getCompareDate Local now path baseLen =
  Some (Time.Add (Time.Date (pieceValue py) (pieceValue pm) (pieceValue pd)
                  (pieceValue ph) (GoInt.add (pieceValue pmin) 1) 0 0 Local)
                 (GoInt.mul (-1) Time.Second)).
Proof.
  intros Hb Hlen Hy Hm Hd Hh Hmin. unfold getCompareDate.
  rewrite !(roomy_add baseLen) by (assumption || lia).
  assert (Hr : forall k, 0 <= k <= 6 -> 0 <= baseLen + k <= GoInt.maxInt)
    by (unfold roomy, GoInt.maxInt in *; lia).
  rewrite (getDatePiece_lookup _ _ _ _ (Hr 1 ltac:(lia)) Hy).
  rewrite (getDatePiece_lookup _ _ _ _ (Hr 2 ltac:(lia)) Hm).
  rewrite (getDatePiece_lookup _ _ _ _ (Hr 3 ltac:(lia)) Hd).
  rewrite (getDatePiece_lookup _ _ _ _ (Hr 4 ltac:(lia)) Hh).
  rewrite (getDatePiece_lookup _ _ _ _ (Hr 5 ltac:(lia)) Hmin).
  rewrite Hlen.
  repeat match goal with
         | |- context [?a <? ?b] => destruct (Z.ltb_spec a b); try lia
         end.
  reflexivity.
Qed.

(** ** [ParseInt] reads exactly the integers of the [int] range *)

Lemma digit_range c d : Strconv.digit c = Some d -> 0 <= d <= 9.
Proof.
  unfold Strconv.digit. intros H.
  destruct (Z.leb_spec 48 (Z.of_N (N_of_ascii c)));
    destruct (Z.leb_spec (Z.of_N (N_of_ascii c)) 57);
    simpl in H; inversion H; lia.
Qed.

Lemma decimalValue_ge s : forall acc v,
  0 <= acc -> decimalValue acc s = Some v -> acc <= v.
Proof.
  induction s as [| c s IH]; simpl; intros acc v Hacc H.
  - inversion H. lia.
  - destruct (Strconv.digit c) as [d |] eqn:Hd; [| discriminate].
    apply digit_range in Hd. apply IH in H; lia.
Qed.

Lemma parseLoop_spec s : forall n v,
  0 <= n <= Strconv.maxUint64 ->
  Strconv.parseLoop n s = inl v <->
  decimalValue n s = Some v /\ v <= Strconv.maxUint64.
Proof.
  induction s as [| c s IH]; simpl; intros n v Hn.
  - split.
    + intros H. inversion H. subst. split; [reflexivity | lia].
    + intros [H _]. now inversion H.
  - destruct (Strconv.digit c) as [d |] eqn:Hd.
    2: { split; [discriminate | intros [H _]; discriminate]. }
    pose proof (digit_range _ _ Hd) as Hr.
    unfold Strconv.maxUint64 in *.
    destruct (Z.leb_spec ((2 ^ 64 - 1) / 10 + 1) n) as [Hc | Hc].
    { split; [discriminate |]. intros [H Hv].
      apply decimalValue_ge in H; [| lia].
      change ((2 ^ 64 - 1) / 10 + 1) with 1844674407370955162 in Hc. lia. }
    destruct (Z.ltb_spec (2 ^ 64 - 1) (n * 10 + d)) as [Ho | Ho].
    { split; [discriminate |]. intros [H Hv].
      apply decimalValue_ge in H; lia. }
    apply IH. lia.
Qed.

Lemma ParseUint_spec s v :
  Strconv.ParseUint s = inl v <->
  s <> EmptyString /\ decimalValue 0 s = Some v /\ v <= Strconv.maxUint64.
Proof.
  destruct s as [| c s].
  - simpl. split; [discriminate | intros [H _]; congruence].
  - change (Strconv.ParseUint (String c s)) with (Strconv.parseLoop 0 (String c s)).
    rewrite parseLoop_spec by (unfold Strconv.maxUint64; lia).
    split.
    + intros [H1 H2]. repeat split; [discriminate | assumption | assumption].
    + intros (_ & H1 & H2). now split.
Qed.

Lemma ParseInt_signed c rest neg :
  (c = "+"%char /\ neg = false) \/ (c = "-"%char /\ neg = true) ->
  forall n,
  Strconv.ParseInt (String c rest) = inl n <->
  exists un, Strconv.ParseUint rest = inl un /\
             (if neg then un <= 2 ^ 63 else un < 2 ^ 63) /\
             n = (if neg then - un else un).
Proof.
  intros Hc n.
  assert (E : Strconv.ParseInt (String c rest) =
              match Strconv.ParseUint rest with
              | inr Strconv.ErrSyntax => inr Strconv.ErrSyntax
              | inr Strconv.ErrRange => inr Strconv.ErrRange
              | inl un =>
                  if negb neg && (2 ^ 63 <=? un) then inr Strconv.ErrRange
                  else if neg && (2 ^ 63 <? un) then inr Strconv.ErrRange
                  else inl (if neg then - un else un)
              end).
  { destruct Hc as [[-> ->] | [-> ->]]; reflexivity. }
  rewrite E. clear E.
  destruct (Strconv.ParseUint rest) as [un | []].
  - destruct neg; simpl.
    + destruct (Z.ltb_spec (2 ^ 63) un).
      * split; [discriminate | intros (u & Hu & Hle & _); inversion Hu; lia].
      * split.
        -- intros H0. injection H0 as <-. exists un. repeat split; lia.
        -- intros (u & Hu & _ & ->). now inversion Hu.
    + destruct (Z.leb_spec (2 ^ 63) un).
      * split; [discriminate | intros (u & Hu & Hle & _); inversion Hu; lia].
      * split.
        -- intros H0. injection H0 as <-. exists un. repeat split; lia.
        -- intros (u & Hu & _ & ->). now inversion Hu.
  - split; [discriminate | intros (u & Hu & _); discriminate].
  - split; [discriminate | intros (u & Hu & _); discriminate].
Qed.

Lemma ParseInt_unsigned c rest :
  c <> "+"%char -> c <> "-"%char ->
  forall n,
  Strconv.ParseInt (String c rest) = inl n <->
  Strconv.ParseUint (String c rest) = inl n /\ n < 2 ^ 63.
Proof.
  intros Hp Hm n.
  assert (E : Strconv.ParseInt (String c rest) =
              match Strconv.ParseUint (String c rest) with
              | inr Strconv.ErrSyntax => inr Strconv.ErrSyntax
              | inr Strconv.ErrRange => inr Strconv.ErrRange
              | inl un => if 2 ^ 63 <=? un then inr Strconv.ErrRange else inl un
              end).
  { unfold Strconv.ParseInt.
    destruct (Ascii.eqb_spec c "+"); [congruence |].
    destruct (Ascii.eqb_spec c "-"); [congruence |].
    reflexivity. }
  rewrite E. clear E.
  destruct (Strconv.ParseUint (String c rest)) as [un | []].
  - destruct (Z.leb_spec (2 ^ 63) un).
    + split; [discriminate | intros [Hu Hlt]; inversion Hu; lia].
    + split; [intros H0; inversion H0; subst; now split
             | intros [Hu _]; now inversion Hu].
  - split; [discriminate | intros [Hu _]; discriminate].
  - split; [discriminate | intros [Hu _]; discriminate].
Qed.

Lemma decimalValue_nonneg s v : decimalValue 0 s = Some v -> 0 <= v.
Proof. intros H. apply decimalValue_ge in H; lia. Qed.

(** [ParseInt] succeeds exactly on the strings that write an integer of
    the [int] range, and returns that integer. *)
Lemma ParseInt_spec s n :
  Strconv.ParseInt s = inl n <-> denotesInteger s n /\ GoInt.inRange n.
Proof.
  unfold GoInt.inRange, GoInt.minInt, GoInt.maxInt.
  destruct s as [| c rest].
  { split; [discriminate |].
    intros [(sign & body & m & Hs & _ & Hb & _) _].
    destruct sign; cbv in Hs; [symmetry in Hs; contradiction | discriminate]. }
  destruct (Ascii.eqb_spec c "+") as [-> | Hp];
    [| destruct (Ascii.eqb_spec c "-") as [-> | Hm]].
  - rewrite (ParseInt_signed "+" rest false) by (left; now split).
    split.
    + intros (un & Hu & Hlt & ->). apply ParseUint_spec in Hu as (Hne & Hv & Hmax).
      pose proof (decimalValue_nonneg _ _ Hv).
      split; [| lia]. exists "+", rest, un. repeat split; auto.
    + intros [(sign & body & m & Hs & Hsign & Hb & Hv & Hn) Hr].
      destruct Hsign as [-> | [-> | ->]]; cbv in Hs.
      * subst body. simpl in Hv. discriminate.
      * inversion Hs. subst body. simpl in Hn. subst n.
        exists m. repeat split; [| lia].
        apply ParseUint_spec. repeat split; auto. unfold Strconv.maxUint64. lia.
      * inversion Hs.
  - rewrite (ParseInt_signed "-" rest true) by (right; now split).
    split.
    + intros (un & Hu & Hlt & ->). apply ParseUint_spec in Hu as (Hne & Hv & Hmax).
      pose proof (decimalValue_nonneg _ _ Hv).
      split; [| lia]. exists "-", rest, un. repeat split; auto.
    + intros [(sign & body & m & Hs & Hsign & Hb & Hv & Hn) Hr].
      destruct Hsign as [-> | [-> | ->]]; cbv in Hs.
      * subst body. simpl in Hv. discriminate.
      * inversion Hs.
      * inversion Hs. subst body. simpl in Hn. subst n.
        exists m. repeat split; [| lia].
        apply ParseUint_spec. repeat split; auto. unfold Strconv.maxUint64. lia.
  - rewrite (ParseInt_unsigned c rest Hp Hm).
    split.
    + intros [Hu Hlt]. apply ParseUint_spec in Hu as (Hne & Hv & Hmax).
      pose proof (decimalValue_nonneg _ _ Hv).
      split; [| lia]. exists "", (String c rest), n. repeat split; auto.
    + intros [(sign & body & m & Hs & Hsign & Hb & Hv & Hn) Hr].
      destruct Hsign as [-> | [-> | ->]]; cbv in Hs.
      * subst body. simpl in Hn. subst n.
        pose proof (decimalValue_nonneg _ _ Hv).
        split; [| lia].
        apply ParseUint_spec. repeat split; auto. unfold Strconv.maxUint64. lia.
      * inversion Hs. congruence.
      * inversion Hs. congruence.
Qed.

(** ** The shape of the trace of a walk *)

Section Shape.

Variable Local : Time.Location.
Variable tick : Time.Time -> Time.Time.
Variable deleteTime : Time.Time.
Variable baseLen : Z.

Local Abbreviation block := (block Local deleteTime baseLen).
Local Abbreviation blocks := (blocks Local deleteTime baseLen).

Lemma blocks_one b : block b -> blocks b.
Proof. intros H. rewrite <- (app_nil_r b). apply blocks_cons; [exact H | constructor]. Qed.

Lemma blocks_app a b : blocks a -> blocks b -> blocks (a ++ b).
Proof.
  induction 1 as [| x l Hx Hl IH]; intros Hb; simpl; [exact Hb |].
  rewrite <- app_assoc. apply blocks_cons; auto.
Qed.

Lemma blocks_not_Removing p l : ~ blocks (Removing p :: l).
Proof.
  intros H. inversion H as [| b l' Hb Hl E]. destruct Hb; discriminate.
Qed.

Lemma visit_block path f err w w' t r :
  visit Local tick deleteTime baseLen path f err w = (w', t, r) -> block t.
Proof.
  unfold visit. intros H.
  destruct err as [e |]; [inversion H; constructor |].
  destruct f as [f |]; [| inversion H; constructor].
  destruct (Os.IsDir f); simpl in H; [| inversion H; constructor].
  destruct (getCompareDate Local (clock w) path baseLen) as [c |] eqn:Hc;
    [| inversion H; constructor].
  unfold Time.Before in H.
  destruct (Z.ltb_spec c deleteTime) as [Hlt | Hge].
  - destruct (Os.RemoveAll (fs w) path) as [fs' [e |]]; inversion H; subst; simpl.
    + eapply block_remove_failed; eauto.
    + eapply block_removed; eauto.
  - inversion H; subst. eapply block_kept; eauto. lia.
Qed.

Lemma walkNames_blocks walkRec :
  (forall p i w w' t r, walkRec p i w = (w', t, r) -> blocks t) ->
  forall path names w w' t r,
  walkNames (visit Local tick deleteTime baseLen) walkRec path names w = (w', t, r) ->
  blocks t.
Proof.
  intros Hrec path names.
  induction names as [| name rest IH]; cbn [walkNames]; intros w w' t r H.
  - inversion H. constructor.
  - destruct (Os.Lstat (fs w) (Filepath.Join path name)) as [fileInfo | e].
    + destruct (walkRec (Filepath.Join path name) fileInfo w) as [[w1 t1] r1] eqn:E1.
      apply Hrec in E1.
      destruct (walkNames _ walkRec path rest w1) as [[w2 t2] r2] eqn:E2.
      apply IH in E2.
      destruct r1 as [e1 |].
      * destruct (negb (Os.IsDir fileInfo) || negb (error_eqb e1 SkipDir));
          inversion H; subst; auto using blocks_app.
      * inversion H; subst; auto using blocks_app.
    + destruct (visit Local tick deleteTime baseLen (Filepath.Join path name)
                      None (Some e) w) as [[w1 t1] r1] eqn:E1.
      apply visit_block, blocks_one in E1.
      destruct (walkNames _ walkRec path rest w1) as [[w2 t2] r2] eqn:E2.
      apply IH in E2.
      destruct r1 as [e1 |].
      * destruct (error_eqb e1 SkipDir); inversion H; subst; auto using blocks_app.
      * inversion H; subst; auto using blocks_app.
Qed.

Lemma walk_blocks fuel : forall path info w w' t r,
  walk (visit Local tick deleteTime baseLen) fuel path info w = (w', t, r) ->
  blocks t.
Proof.
  induction fuel as [| fuel IH]; cbn [walk]; intros path info w w' t r H.
  - inversion H. constructor.
  - destruct (negb (Os.IsDir info)).
    + apply visit_block, blocks_one in H. exact H.
    + destruct (visit Local tick deleteTime baseLen path (Some info) _ w)
        as [[w1 t1] r1] eqn:E1.
      apply visit_block, blocks_one in E1.
      destruct (readDirNames w path) as [names | e].
      * destruct r1 as [e1 |]; [inversion H; subst; exact E1 |].
        destruct (walkNames _ _ path names w1) as [[w2 t2] r2] eqn:E2.
        apply (walkNames_blocks _ IH) in E2.
        inversion H; subst. now apply blocks_app.
      * inversion H; subst; exact E1.
Qed.

Lemma Walk_blocks root w w' t r :
  Walk (visit Local tick deleteTime baseLen) root w = (w', t, r) -> blocks t.
Proof.
  unfold Walk. intros H.
  destruct (Os.Lstat (fs w) root) as [info | e].
  - destruct (walk _ _ root info w) as [[w1 t1] r1] eqn:E1.
    apply walk_blocks in E1.
    destruct r1 as [[] |]; inversion H; subst; exact E1.
  - destruct (visit Local tick deleteTime baseLen root None (Some e) w)
      as [[w1 t1] r1] eqn:E1.
    apply visit_block, blocks_one in E1.
    destruct r1 as [[] |]; inversion H; subst; exact E1.
Qed.

(** Where a [DirTime] event can stand in such a trace, and what follows
    it. *)
Lemma blocks_DirTime tr :
  blocks tr ->
  forall pre c d post,
  tr = pre ++ DirTime c d :: post ->
  exists pre' p,
    pre = pre' ++ [WalkFound p] /\
    d = deleteTime /\
    (exists now, getCompareDate Local now p baseLen = Some c) /\
    (c < d <-> exists post', post = Removing p :: OsRemoveAll p :: post').
Proof.
  induction 1 as [| b l Hb Hl IH]; intros pre c d post E.
  { destruct pre; discriminate. }
  assert (Hlater : forall front pre1,
            pre = front ++ pre1 -> l = pre1 ++ DirTime c d :: post ->
            exists pre' p,
              pre = pre' ++ [WalkFound p] /\ d = deleteTime /\
              (exists now, getCompareDate Local now p baseLen = Some c) /\
              (c < d <-> exists post', post = Removing p :: OsRemoveAll p :: post')).
  { intros front pre1 -> El.
    destruct (IH _ _ _ _ El) as (pre' & p & -> & Hd & Hnow & Hiff).
    exists (front ++ pre'), p. rewrite app_assoc. auto. }
  destruct Hb as [p e | p | p c0 now Hc Hge | p c0 now Hc Hlt
                 | p c0 now e Hc Hlt | fileName e]; simpl in E.
  - destruct pre as [| a1 pre]; [discriminate | injection E as <- E].
    destruct pre as [| a2 pre]; [discriminate | injection E as <- E].
    eapply (Hlater [_; _] pre); [reflexivity | exact E].
  - destruct pre as [| a1 pre]; [discriminate | injection E as <- E].
    eapply (Hlater [_] pre); [reflexivity | exact E].
  - destruct pre as [| a1 pre]; [discriminate | injection E as <- E].
    destruct pre as [| a2 pre].
    + injection E as <- <- ->. exists [], p. repeat split; eauto.
      * intros Hlt. contradiction.
      * intros [post' ->]. now apply blocks_not_Removing in Hl.
    + injection E as <- E. eapply (Hlater [_; _] pre); [reflexivity | exact E].
  - destruct pre as [| a1 pre]; [discriminate | injection E as <- E].
    destruct pre as [| a2 pre].
    + injection E as <- <- <-. exists [], p. repeat split; eauto.
    + injection E as <- E.
      destruct pre as [| a3 pre]; [discriminate | injection E as <- E].
      destruct pre as [| a4 pre]; [discriminate | injection E as <- E].
      eapply (Hlater [_; _; _; _] pre); [reflexivity | exact E].
  - destruct pre as [| a1 pre]; [discriminate | injection E as <- E].
    destruct pre as [| a2 pre].
    + injection E as <- <- <-. exists [], p. repeat split; eauto.
    + injection E as <- E.
      destruct pre as [| a3 pre]; [discriminate | injection E as <- E].
      destruct pre as [| a4 pre]; [discriminate | injection E as <- E].
      destruct pre as [| a5 pre]; [discriminate | injection E as <- E].
      eapply (Hlater [_; _; _; _; _] pre); [reflexivity | exact E].
  - destruct pre as [| a1 pre]; [discriminate | injection E as <- E].
    eapply (Hlater [_] pre); [reflexivity | exact E].
Qed.

(** Every call of [os.RemoveAll] closes the visit of a directory whose
    date was found to be before the deletion time. *)
Lemma blocks_OsRemoveAll tr :
  blocks tr ->
  forall pre p post,
  tr = pre ++ OsRemoveAll p :: post ->
  exists pre' c now,
    pre = pre' ++ [WalkFound p; DirTime c deleteTime; Removing p] /\
    getCompareDate Local now p baseLen = Some c /\
    c < deleteTime.
Proof.
  induction 1 as [| b l Hb Hl IH]; intros pre q post E.
  { destruct pre; discriminate. }
  assert (Hlater : forall front pre1,
            pre = front ++ pre1 -> l = pre1 ++ OsRemoveAll q :: post ->
            exists pre' c now,
              pre = pre' ++ [WalkFound q; DirTime c deleteTime; Removing q] /\
              getCompareDate Local now q baseLen = Some c /\
              c < deleteTime).
  { intros front pre1 -> El.
    destruct (IH _ _ _ El) as (pre' & c & now & -> & Hc & Hlt).
    exists (front ++ pre'), c, now. rewrite app_assoc. auto. }
  destruct Hb as [p e | p | p c0 now Hc Hge | p c0 now Hc Hlt
                 | p c0 now e Hc Hlt | fileName e]; simpl in E.
  - destruct pre as [| a1 pre]; [discriminate | injection E as <- E].
    destruct pre as [| a2 pre]; [discriminate | injection E as <- E].
    eapply (Hlater [_; _] pre); [reflexivity | exact E].
  - destruct pre as [| a1 pre]; [discriminate | injection E as <- E].
    eapply (Hlater [_] pre); [reflexivity | exact E].
  - destruct pre as [| a1 pre]; [discriminate | injection E as <- E].
    destruct pre as [| a2 pre]; [discriminate | injection E as <- E].
    eapply (Hlater [_; _] pre); [reflexivity | exact E].
  - destruct pre as [| a1 pre]; [discriminate | injection E as <- E].
    destruct pre as [| a2 pre]; [discriminate | injection E as <- E].
    destruct pre as [| a3 pre]; [discriminate | injection E as <- E].
    destruct pre as [| a4 pre].
    + injection E as <- <-. exists [], c0, now. auto.
    + injection E as <- E. eapply (Hlater [_; _; _; _] pre); [reflexivity | exact E].
  - destruct pre as [| a1 pre]; [discriminate | injection E as <- E].
    destruct pre as [| a2 pre]; [discriminate | injection E as <- E].
    destruct pre as [| a3 pre]; [discriminate | injection E as <- E].
    destruct pre as [| a4 pre].
    + injection E as <- <-. exists [], c0, now. auto.
    + injection E as <- E.
      destruct pre as [| a5 pre]; [discriminate | injection E as <- E].
      eapply (Hlater [_; _; _; _; _] pre); [reflexivity | exact E].
  - destruct pre as [| a1 pre]; [discriminate | injection E as <- E].
    eapply (Hlater [_] pre); [reflexivity | exact E].
Qed.

End Shape.

(** ** The table only shrinks, and the walk ends *)

Lemma append_length a b :
  String.length (a +:+ b) = (String.length a + String.length b)%nat.
Proof.
  induction a as [| c a IH]; [reflexivity |].
  change (String c a +:+ b) with (String c (a +:+ b)).
  cbn [String.length]. now rewrite IH.
Qed.

Lemma dirPrefix_length dir :
  (String.length dir <= String.length (Filepath.dirPrefix dir))%nat.
Proof.
  unfold Filepath.dirPrefix.
  destruct (Filepath.endsWithSeparator dir); [lia |].
  destruct dir; [cbn; lia |]. rewrite append_length. lia.
Qed.

Lemma Join_longer path name :
  name <> EmptyString ->
  (String.length path < String.length (Filepath.Join path name))%nat.
Proof.
  intros Hne. unfold Filepath.Join. rewrite append_length.
  pose proof (dirPrefix_length path).
  destruct name; [congruence | cbn; lia].
Qed.

Lemma find_maxLen fs0 path n :
  Os.find fs0 path = Some n -> (String.length path <= Os.maxLen fs0)%nat.
Proof.
  induction fs0 as [| [q m] rest IH]; simpl; [discriminate |].
  destruct (String.eqb_spec q path) as [-> | Hne]; intros H.
  - lia.
  - apply IH in H. lia.
Qed.

Lemma Lstat_maxLen fs0 path info :
  Os.Lstat fs0 path = inl info -> (String.length path <= Os.maxLen fs0)%nat.
Proof.
  unfold Os.Lstat. destruct (Os.find fs0 path) eqn:E; [| discriminate].
  intros _. eapply find_maxLen; eauto.
Qed.

Lemma filter_maxLen f (fs0 : Os.Table) :
  (Os.maxLen (List.filter f fs0) <= Os.maxLen fs0)%nat.
Proof.
  induction fs0 as [| e rest IH]; simpl; [lia |].
  destruct (f e); simpl; lia.
Qed.

Lemma RemoveAll_maxLen fs0 path fs' r :
  Os.RemoveAll fs0 path = (fs', r) -> (Os.maxLen fs' <= Os.maxLen fs0)%nat.
Proof.
  unfold Os.RemoveAll. destruct path; [intros H; inversion H; lia |].
  destruct (existsb _ fs0); intros H; inversion H; subst; [lia |].
  apply filter_maxLen.
Qed.

Lemma childName_nonempty d q name :
  Os.childName d q = Some name -> name <> EmptyString.
Proof.
  unfold Os.childName. destruct (Os.strip _ q) as [[| c s] |]; try discriminate.
  destruct (Strings.free_of _ _); [| discriminate].
  intros H. inversion H. discriminate.
Qed.

Lemma entries_nonempty d fs0 name :
  In name (map Os.Name (Os.entries d fs0)) -> name <> EmptyString.
Proof.
  induction fs0 as [| [q n] rest IH]; simpl; [tauto |].
  destruct (Os.childName d q) as [nm |] eqn:E; [| exact IH].
  simpl. intros [<- | H]; [| auto]. eapply childName_nonempty; eauto.
Qed.

Lemma readDirNames_nonempty w dirname names name :
  readDirNames w dirname = inl names -> In name names -> name <> EmptyString.
Proof.
  unfold readDirNames, Os.ReadDir.
  destruct (Os.find (fs w) dirname) as [n |]; [| discriminate].
  destruct (negb (Os.dir n)); [discriminate |].
  destruct (Os.locked n); [discriminate |].
  intros H. inversion H. subst. apply entries_nonempty.
Qed.

Section Termination.

Variable walkFn : WalkFunc.

(** The function called on each entry neither adds a path to the table
    nor cuts the walk short. *)
Hypothesis walkFn_shrinks : forall path f err w w' t r,
  walkFn path f err w = (w', t, r) ->
  (Os.maxLen (fs w') <= Os.maxLen (fs w))%nat /\ r <> Some Exhausted.

Lemma walkNames_finishes walkRec path (bound : nat) names :
  (forall name info w,
      In name names ->
      Os.Lstat (fs w) (Filepath.Join path name) = inl info ->
      (Os.maxLen (fs w) <= bound)%nat ->
      finishes w (walkRec (Filepath.Join path name) info w)) ->
  forall w, (Os.maxLen (fs w) <= bound)%nat ->
  finishes w (walkNames walkFn walkRec path names w).
Proof.
  induction names as [| name rest IH]; cbn [walkNames]; intros Hrec w Hw.
  - split; simpl; [lia | discriminate].
  - assert (IH' : forall w, (Os.maxLen (fs w) <= bound)%nat ->
                  finishes w (walkNames walkFn walkRec path rest w)).
    { apply IH. intros nm info w0 Hin. apply Hrec. now right. }
    destruct (Os.Lstat (fs w) (Filepath.Join path name)) as [fileInfo | e] eqn:El.
    + pose proof (Hrec name fileInfo w (or_introl eq_refl) El Hw) as [H1 H2].
      destruct (walkRec (Filepath.Join path name) fileInfo w) as [[w1 t1] r1].
      simpl in H1, H2.
      pose proof (IH' w1 ltac:(lia)) as [H3 H4].
      destruct (walkNames walkFn walkRec path rest w1) as [[w2 t2] r2].
      simpl in H3, H4.
      destruct r1 as [e1 |].
      * destruct (negb (Os.IsDir fileInfo) || negb (error_eqb e1 SkipDir));
          split; simpl; auto; lia.
      * split; simpl; auto; lia.
    + destruct (walkFn (Filepath.Join path name) None (Some e) w)
        as [[w1 t1] r1] eqn:E1.
      apply walkFn_shrinks in E1 as [H1 H2].
      pose proof (IH' w1 ltac:(lia)) as [H3 H4].
      destruct (walkNames walkFn walkRec path rest w1) as [[w2 t2] r2].
      simpl in H3, H4.
      destruct r1 as [e1 |].
      * destruct (error_eqb e1 SkipDir); split; simpl; auto; lia.
      * split; simpl; auto; lia.
Qed.

Lemma walk_finishes fuel : forall path info w,
  (String.length path <= Os.maxLen (fs w))%nat ->
  (Os.maxLen (fs w) < fuel + String.length path)%nat ->
  finishes w (walk walkFn fuel path info w).
Proof.
  induction fuel as [| fuel IH]; cbn [walk]; intros path info w Hkey Hfuel.
  - lia.
  - destruct (negb (Os.IsDir info)).
    + destruct (walkFn path (Some info) None w) as [[w1 t1] r1] eqn:E1.
      apply walkFn_shrinks in E1. exact E1.
    + destruct (walkFn path (Some info) _ w) as [[w1 t1] r1] eqn:E1.
      apply walkFn_shrinks in E1 as [H1 H2].
      destruct (readDirNames w path) as [names | e] eqn:En.
      2: { split; simpl; auto. }
      destruct r1 as [e1 |]; [split; simpl; auto |].
      pose proof (walkNames_finishes (walk walkFn fuel) path (Os.maxLen (fs w)) names) as Hn.
      destruct (Hn) with (w := w1) as [H3 H4].
      { intros name info' w0 Hin Hl Hb. apply IH.
        - eapply Lstat_maxLen; eauto.
        - pose proof (Join_longer path name
                        (readDirNames_nonempty _ _ _ _ En Hin)). lia. }
      { exact H1. }
      destruct (walkNames walkFn (walk walkFn fuel) path names w1) as [[w2 t2] r2].
      simpl in H3, H4. split; simpl; auto; lia.
Qed.

(** [Walk] never stops for want of recursion depth. *)
Lemma Walk_finishes root w : finishes w (Walk walkFn root w).
Proof.
  unfold Walk.
  destruct (Os.Lstat (fs w) root) as [info | e] eqn:El.
  - pose proof (walk_finishes (S (Os.maxLen (fs w))) root info w
                  (Lstat_maxLen _ _ _ El) ltac:(lia)) as [H1 H2].
    destruct (walk walkFn _ root info w) as [[w1 t1] r1]. simpl in H1, H2.
    destruct r1 as [[] |]; split; simpl; auto; discriminate.
  - destruct (walkFn root None (Some e) w) as [[w1 t1] r1] eqn:E1.
    apply walkFn_shrinks in E1 as [H1 H2].
    destruct r1 as [[] |]; split; simpl; auto; discriminate.
Qed.

End Termination.

Lemma visit_shrinks Local tick deleteTime baseLen path f err w w' t r :
  visit Local tick deleteTime baseLen path f err w = (w', t, r) ->
  (Os.maxLen (fs w') <= Os.maxLen (fs w))%nat /\ r <> Some Exhausted.
Proof.
  unfold visit. intros H.
  destruct err as [e |]; [inversion H; subst; split; [lia | discriminate] |].
  destruct f as [f |]; [| inversion H; subst; split; [lia | discriminate]].
  destruct (Os.IsDir f); simpl in H;
    [| inversion H; subst; split; [lia | discriminate]].
  destruct (getCompareDate Local (clock w) path baseLen) as [c |];
    [| inversion H; subst; split; [simpl; lia | discriminate]].
  destruct (Time.Before c deleteTime).
  - destruct (Os.RemoveAll (fs w) path) as [fs' re] eqn:Er.
    apply RemoveAll_maxLen in Er.
    inversion H; subst. split; [simpl; lia | discriminate].
  - inversion H; subst. split; [simpl; lia | discriminate].
Qed.

(** The walk inside [pruneSingleCompanyDir] always comes to its end. *)
Lemma prune_Walk_finishes Local tick deleteTime baseLen fileName w :
  snd (Walk (visit Local tick deleteTime baseLen) fileName w) <> Some Exhausted.
Proof.
  apply (Walk_finishes (visit Local tick deleteTime baseLen)).
  intros path f err w0 w' t r. apply visit_shrinks.
Qed.

(** ** What is left of a removed directory *)

Lemma prefix_append p s : String.prefix p (p +:+ s) = true.
Proof.
  induction p as [| c p IH]; [now destruct s |].
  change (String c p +:+ s) with (String c (p +:+ s)). simpl.
  destruct (ascii_dec c c); [exact IH | congruence].
Qed.

Lemma within_Join path name : Os.within path (Filepath.Join path name) = true.
Proof.
  unfold Os.within, Filepath.Join. rewrite prefix_append. apply orb_true_r.
Qed.

Lemma find_filter_gone (f : string -> bool) (fs0 : Os.Table) q :
  f q = true ->
  Os.find (List.filter (fun e => negb (f (fst e))) fs0) q = None.
Proof.
  intros Hq. induction fs0 as [| [k n] rest IH]; simpl; [reflexivity |].
  destruct (f k) eqn:Hk; simpl; [exact IH |].
  destruct (String.eqb_spec k q) as [-> | Hne]; [congruence | exact IH].
Qed.

Lemma RemoveAll_gone fs0 path fs' name :
  path <> EmptyString ->
  Os.RemoveAll fs0 path = (fs', None) ->
  Os.Lstat fs' (Filepath.Join path name) = inr ENOENT.
Proof.
  intros Hne. unfold Os.RemoveAll.
  destruct path as [| c path]; [congruence |].
  destruct (existsb _ fs0); [discriminate |].
  intros H. inversion H. subst fs'. unfold Os.Lstat.
  rewrite (find_filter_gone (Os.within (String c path))); [reflexivity |].
  apply within_Join.
Qed.

Lemma walkNames_vanished Local tick deleteTime baseLen walkRec path names w :
  (forall name, In name names ->
     Os.Lstat (fs w) (Filepath.Join path name) = inr ENOENT) ->
  walkNames (visit Local tick deleteTime baseLen) walkRec path names w =
  (w, flat_map (fun name => reported (Filepath.Join path name) ENOENT) names,
   None).
Proof.
  induction names as [| name rest IH]; cbn [walkNames flat_map]; intros H.
  - reflexivity.
  - rewrite (H name (or_introl eq_refl)). cbn [visit].
    rewrite IH by (intros nm Hin; apply H; now right). reflexivity.
Qed.

(** ** What a sweep does to the table *)

Lemma occurrence_app {A} (x : A) pre post t1 t2 :
  pre ++ x :: post = t1 ++ t2 ->
  (exists post1, t1 = pre ++ x :: post1 /\ post = post1 ++ t2) \/
  (exists pre2, pre = t1 ++ pre2 /\ t2 = pre2 ++ x :: post).
Proof.
  revert pre. induction t1 as [| a t1 IH]; intros pre E.
  - right. exists pre. auto.
  - destruct pre as [| b pre]; simpl in E; injection E as -> E.
    + left. exists t1. subst post. auto.
    + destruct (IH pre E) as [(post1 & -> & ->) | (pre2 & -> & ->)].
      * left. exists post1. auto.
      * right. exists pre2. auto.
Qed.

Lemma find_filter (f : string -> bool) (fs0 : Os.Table) q :
  Os.find (List.filter (fun e => negb (f (fst e))) fs0) q
  = if f q then None else Os.find fs0 q.
Proof.
  induction fs0 as [| [k n] rest IH]; simpl.
  - now destruct (f q).
  - destruct (f k) eqn:Hk; simpl.
    + rewrite IH. destruct (String.eqb_spec k q) as [-> | Hne];
        [now rewrite Hk | reflexivity].
    + destruct (String.eqb_spec k q) as [-> | Hne];
        [now rewrite Hk | exact IH].
Qed.

Lemma RemoveAll_find fs0 path fs' r q :
  Os.RemoveAll fs0 path = (fs', r) ->
  Os.find fs' q = Os.find fs0 q \/
  (Os.find fs' q = None /\ Os.within path q = true /\ r = None /\
   path <> EmptyString).
Proof.
  unfold Os.RemoveAll. destruct path as [| c path].
  - intros H. inversion H. auto.
  - destruct (existsb _ fs0); intros H; inversion H; subst; [auto |].
    rewrite (find_filter (Os.within (String c path))).
    destruct (Os.within (String c path) q); [right | left]; auto.
Qed.

Lemma RemoveAll_removed fs0 path fs' q :
  Os.RemoveAll fs0 path = (fs', None) ->
  path <> EmptyString ->
  Os.within path q = true ->
  Os.find fs' q = None.
Proof.
  unfold Os.RemoveAll. destruct path as [| c path]; [congruence |].
  destruct (existsb _ fs0); [discriminate |].
  intros H _ Hq. inversion H. subst.
  now rewrite (find_filter (Os.within (String c path))), Hq.
Qed.

Lemma restricts_refl w : restricts w w.
Proof. intros q. now left. Qed.

Lemma restricts_trans w0 w1 w2 :
  restricts w0 w1 -> restricts w1 w2 -> restricts w0 w2.
Proof.
  intros H1 H2 q. destruct (H2 q) as [E | E]; [| now right].
  rewrite E. apply H1.
Qed.

Lemma restricts_elapse tick w0 w : restricts w0 w -> restricts w0 (elapse tick w).
Proof. intros H q. apply H. Qed.

Lemma Lstat_find fs0 path info :
  Os.Lstat fs0 path = inl info ->
  exists n, Os.find fs0 path = Some n /\ Os.dir n = Os.IsDir info.
Proof.
  unfold Os.Lstat. destruct (Os.find fs0 path) as [n |]; [| discriminate].
  intros H. inversion H. exists n. auto.
Qed.

Section Sweep.

Variable Local : Time.Location.
Variable tick : Time.Time -> Time.Time.
Variable deleteTime : Time.Time.
Variable baseLen : Z.

(** The world in which the sweep began. *)
Variable origin : World.

Hypothesis baseLen_roomy : roomy baseLen.

Local Abbreviation sweeps := (sweeps (fs origin) deleteTime).

Lemma sweeps_nil w : sweeps w [] w.
Proof.
  split; [| split; [| split; [| split]]].
  - apply restricts_refl.
  - intros q _. reflexivity.
  - intros pre p post E. destruct pre; discriminate.
  - intros pre p post E. destruct pre; discriminate.
  - discriminate.
Qed.

Lemma sweeps_app w0 t1 w1 t2 w2 :
  sweeps w0 t1 w1 -> sweeps w1 t2 w2 -> sweeps w0 (t1 ++ t2) w2.
Proof.
  intros (R1 & K1 & C1 & G1 & D1) (R2 & K2 & C2 & G2 & D2).
  split; [| split; [| split; [| split]]].
  - eapply restricts_trans; eauto.
  - intros q Hq. rewrite K2, K1; auto; intros p Hin; apply Hq, in_app_iff; auto.
  - intros pre p post E.
    destruct (occurrence_app _ _ _ _ _ (eq_sym E)) as [(post1 & -> & ->) | (pre2 & -> & ->)].
    + destruct (C1 pre p post1 eq_refl)
        as [(e & post' & ->) | [Hfile | (n & c & post' & Hn & Hd & ->)]].
      * left. exists e, (post' ++ t2). reflexivity.
      * right. left. destruct Hfile as (n & Hn & Hd & Hno).
        exists n. repeat split; auto.
        intros c d post'. destruct post1 as [| a post1]; [apply D2 |].
        intros X. injection X as -> X. now apply (Hno c d post1).
      * right. right. exists n, c, (post' ++ t2). auto.
    + exact (C2 pre2 p post eq_refl).
  - intros pre p post E Hne Hok q Hq.
    destruct (occurrence_app _ _ _ _ _ (eq_sym E)) as [(post1 & -> & ->) | (pre2 & -> & ->)].
    + assert (H1 : Os.find (fs w1) q = None).
      { apply (G1 pre p post1 eq_refl Hne); [| exact Hq].
        intros e post' ->. apply (Hok e (post' ++ t2)). reflexivity. }
      destruct (R2 q) as [E2 | E2]; congruence.
    + exact (G2 pre2 p post eq_refl Hne Hok q Hq).
  - intros c d post. destruct t1 as [| a t1]; [apply D2 |].
    intros X. injection X as -> X. now apply (D1 c d t1).
Qed.

Ltac occurrences E pre :=
  repeat (destruct pre as [| ? pre]; cbn in E;
          [ try discriminate E | try discriminate E; injection E as ? E ]).

Lemma visit_sweeps path f err w w' t r :
  restricts origin w ->
  (err = None -> exists info, f = Some info /\ Os.Lstat (fs w) path = inl info) ->
  visit Local tick deleteTime baseLen path f err w = (w', t, r) ->
  sweeps w t w'.
Proof.
  intros Hr Hf. unfold visit.
  destruct err as [e |].
  { intros H. inversion H. subst. split; [| split; [| split; [| split]]].
    - apply restricts_refl.
    - intros q _. reflexivity.
    - intros pre p post E. occurrences E pre.
      injection E as <- <-. left. eauto.
    - intros pre p post E. occurrences E pre.
    - discriminate. }
  destruct (Hf eq_refl) as (info & -> & Hl).
  destruct (Lstat_find _ _ _ Hl) as (n & Hn & Hd).
  assert (Hn0 : Os.find (fs origin) path = Some n).
  { destruct (Hr path) as [E | E]; congruence. }
  destruct (Os.IsDir info) eqn:Hdir; cbn [negb].
  2: { intros H. inversion H. subst. split; [| split; [| split; [| split]]].
       - apply restricts_refl.
       - intros q _. reflexivity.
       - intros pre p post E. occurrences E pre.
         injection E as <- <-. right. left. exists n.
         split; [exact Hn0 | split; [exact Hd | discriminate]].
       - intros pre p post E. occurrences E pre.
       - discriminate. }
  destruct (getCompareDate_total Local (clock w) path baseLen baseLen_roomy)
    as [c Hc].
  rewrite Hc.
  destruct (Time.Before c deleteTime) eqn:Hb.
  - destruct (Os.RemoveAll (fs w) path) as [fs' re] eqn:Hrm.
    intros H. inversion H. subst. clear H. split; [| split; [| split; [| split]]].
    + intros q. cbn [fs].
      destruct (RemoveAll_find _ _ _ _ q Hrm) as [E | (E & _)]; auto.
    + intros q Hq. cbn [fs].
      destruct (RemoveAll_find _ _ _ _ q Hrm) as [E | (E & Hw & _)]; [exact E |].
      rewrite Hq in Hw; [discriminate |].
      simpl. auto.
    + intros pre p post E. destruct re; cbn in E; occurrences E pre;
        injection E as <- <-; right; right; exists n, c; eexists; auto.
    + intros pre p post E Hne Hok q Hq. cbn [fs].
      destruct re as [e |]; cbn in E; occurrences E pre.
      * injection E as <- <-. exfalso. now apply (Hok e []).
      * injection E as <- <-. eapply RemoveAll_removed; eauto.
    + discriminate.
  - intros H. inversion H. subst. split; [| split; [| split; [| split]]].
    + apply restricts_elapse, restricts_refl.
    + intros q _. reflexivity.
    + intros pre p post E. occurrences E pre.
      injection E as <- <-. right. right. exists n, c. eexists. auto.
    + intros pre p post E. occurrences E pre.
    + discriminate.
Qed.

Lemma walkNames_sweeps walkRec path names :
  (forall p i w w' t r,
      restricts origin w -> Os.Lstat (fs w) p = inl i ->
      walkRec p i w = (w', t, r) -> sweeps w t w') ->
  forall w w' t r,
  restricts origin w ->
  walkNames (visit Local tick deleteTime baseLen) walkRec path names w
    = (w', t, r) ->
  sweeps w t w'.
Proof.
  intros Hrec.
  induction names as [| name rest IH]; cbn [walkNames]; intros w w' t r Hr H.
  - inversion H. apply sweeps_nil.
  - destruct (Os.Lstat (fs w) (Filepath.Join path name)) as [fileInfo | e] eqn:El.
    + destruct (walkRec (Filepath.Join path name) fileInfo w) as [[w1 t1] r1] eqn:E1.
      pose proof (Hrec _ _ _ _ _ _ Hr El E1) as S1.
      destruct (walkNames _ walkRec path rest w1) as [[w2 t2] r2] eqn:E2.
      assert (S2 : sweeps w1 t2 w2).
      { eapply IH; [| exact E2]. eapply restricts_trans; [exact Hr | apply S1]. }
      destruct r1 as [e1 |].
      * destruct (negb (Os.IsDir fileInfo) || negb (error_eqb e1 SkipDir));
          inversion H; subst; eauto using sweeps_app.
      * inversion H; subst; eauto using sweeps_app.
    + destruct (visit Local tick deleteTime baseLen (Filepath.Join path name)
                      None (Some e) w) as [[w1 t1] r1] eqn:E1.
      assert (S1 : sweeps w t1 w1).
      { refine (visit_sweeps _ None (Some e) w w1 t1 r1 Hr _ E1).
        intros X; discriminate X. }
      destruct (walkNames _ walkRec path rest w1) as [[w2 t2] r2] eqn:E2.
      assert (S2 : sweeps w1 t2 w2).
      { eapply IH; [| exact E2]. eapply restricts_trans; [exact Hr | apply S1]. }
      destruct r1 as [e1 |].
      * destruct (error_eqb e1 SkipDir); inversion H; subst; eauto using sweeps_app.
      * inversion H; subst; eauto using sweeps_app.
Qed.

Lemma walk_sweeps fuel : forall path info w w' t r,
  restricts origin w -> Os.Lstat (fs w) path = inl info ->
  walk (visit Local tick deleteTime baseLen) fuel path info w = (w', t, r) ->
  sweeps w t w'.
Proof.
  induction fuel as [| fuel IH]; cbn [walk]; intros path info w w' t r Hr Hl H.
  - inversion H. apply sweeps_nil.
  - destruct (negb (Os.IsDir info)).
    + refine (visit_sweeps path (Some info) None w w' t r Hr _ H). eauto.
    + destruct (visit Local tick deleteTime baseLen path (Some info) _ w)
        as [[w1 t1] r1] eqn:E1.
      assert (S1 : sweeps w t1 w1).
      { refine (visit_sweeps path (Some info) _ w w1 t1 r1 Hr _ E1). eauto. }
      destruct (readDirNames w path) as [names | e].
      * destruct r1 as [e1 |]; [inversion H; subst; exact S1 |].
        destruct (walkNames _ _ path names w1) as [[w2 t2] r2] eqn:E2.
        assert (S2 : sweeps w1 t2 w2).
        { eapply (walkNames_sweeps _ path names IH); [| exact E2].
          eapply restricts_trans; [exact Hr | apply S1]. }
        inversion H; subst. eauto using sweeps_app.
      * inversion H; subst; exact S1.
Qed.

Lemma Walk_sweeps root w' t r :
  Walk (visit Local tick deleteTime baseLen) root origin = (w', t, r) ->
  sweeps origin t w'.
Proof.
  unfold Walk. intros H.
  destruct (Os.Lstat (fs origin) root) as [info | e] eqn:El.
  - destruct (walk _ _ root info origin) as [[w1 t1] r1] eqn:E1.
    apply walk_sweeps in E1; [| apply restricts_refl | exact El].
    destruct r1 as [[] |]; inversion H; subst; exact E1.
  - destruct (visit Local tick deleteTime baseLen root None (Some e) origin)
      as [[w1 t1] r1] eqn:E1.
    apply visit_sweeps in E1; [| apply restricts_refl | intros X; discriminate X].
    destruct r1 as [[] |]; inversion H; subst; exact E1.
Qed.

End Sweep.

Lemma sweeps_walk_error table deleteTime w fileName e :
  sweeps table deleteTime w [ErrorWalking fileName e] w.
Proof.
  split; [| split; [| split; [| split]]].
  - apply restricts_refl.
  - intros q _. reflexivity.
  - intros pre p post E.
    destruct pre as [| ? pre]; [discriminate |].
    destruct pre; discriminate.
  - intros pre p post E.
    destruct pre as [| ? pre]; [discriminate |].
    destruct pre; discriminate.
  - discriminate.
Qed.

Lemma prune_sweeps Local tick fileName config currTime w days :
  Strconv.ParseInt (Retention config) = inl days ->
  roomy (Z.of_nat (length (Strings.Split fileName PathSeparator))) ->
  sweeps (fs w)
         (Time.AddDate Time.UTC currTime 0 0 (GoInt.mul (-1) days))
         w
         (snd (fst (pruneSingleCompanyDir Local tick fileName config currTime w)))
         (fst (fst (pruneSingleCompanyDir Local tick fileName config currTime w))).
Proof.
  intros Hp Hroomy. unfold pruneSingleCompanyDir. rewrite Hp.
  destruct (Walk _ fileName w) as [[w1 t1] err] eqn:E.
  apply Walk_sweeps in E; [| exact Hroomy].
  destruct err as [[] |]; simpl; try exact E;
    (eapply sweeps_app; [exact E | apply sweeps_walk_error]).
Qed.

(* ===================================================================== *)
(** * The claims *)
(* ===================================================================== *)

(** C1. The code departs from this claim. For a year-only path the boundary
    should be the last second of the year. [getCompareDate] asks
    [time.Date] for month 0, day 0 of the next year, which is November 30
    of the year itself, so the boundary of /data/acme/x/2023 under the
    tenant root /data/acme is 2023-11-29T23:59:59 and not
    2023-12-31T23:59:59; and a path with a single segment below the
    tenant root, /data/acme/2023, is answered with the current instant. *)
Theorem C1_year_boundary_is_november_29 :
  getCompareDate Time.UTC Scenario.now "/data/acme/x/2023" 3
    = Some (Scenario.instant 2023 11 29 23 59 59) /\
  Time.Add (Time.Date (2023 + 1) 1 1 0 0 0 0 Time.UTC) (- Time.Second)
    = Scenario.instant 2023 12 31 23 59 59 /\
  Scenario.instant 2023 11 29 23 59 59 <> Scenario.instant 2023 12 31 23 59 59 /\
  getCompareDate Time.UTC Scenario.now "/data/acme/2023" 3 = Some Scenario.now.
Proof.
  split; [vm_compute; reflexivity |].
  split; [vm_compute; reflexivity |].
  split; [vm_compute; discriminate |].
  vm_compute; reflexivity.
Qed.

(** C3. The code departs from this claim. For a year and month path the
    boundary should be the last second of the month. [getCompareDate]
    asks [time.Date] for day 0 of the next month, which is the last day
    of the month at 00:00:00, and takes a second off: the boundary of
    /data/acme/x/2024/03 is 2024-03-30T23:59:59, a day before the last
    second of March. *)
Theorem C3_month_boundary_is_a_day_early :
  getCompareDate Time.UTC Scenario.now "/data/acme/x/2024/03" 3
    = Some (Scenario.instant 2024 3 30 23 59 59) /\
  Time.Add (Time.Date 2024 (3 + 1) 1 0 0 0 0 Time.UTC) (- Time.Second)
    = Scenario.instant 2024 3 31 23 59 59 /\
  Scenario.instant 2024 3 30 23 59 59 <> Scenario.instant 2024 3 31 23 59 59.
Proof.
  split; [vm_compute; reflexivity |].
  split; [vm_compute; reflexivity |].
  vm_compute; discriminate.
Qed.

Lemma div_step k y :
  0 < k -> y / k = (y - 1) / k + (if y mod k =? 0 then 1 else 0).
Proof.
  intros Hk.
  pose proof (Z.div_mod y k ltac:(lia)) as E.
  pose proof (Z.mod_pos_bound y k Hk) as B.
  destruct (Z.eqb_spec (y mod k) 0) as [H0 | H0].
  - assert (Hd : (y - 1) / k = y / k - 1).
    { symmetry. apply (Z.div_unique_pos (y - 1) k (y / k - 1) (k - 1)); lia. }
    rewrite Hd. lia.
  - assert (Hd : (y - 1) / k = y / k).
    { symmetry. apply (Z.div_unique_pos (y - 1) k (y / k) (y mod k - 1)); lia. }
    rewrite Hd. lia.
Qed.

Lemma rem_zero k y : 0 < k -> (Z.rem y k =? 0) = (y mod k =? 0).
Proof.
  intros Hk.
  destruct (Z.eqb_spec (Z.rem y k) 0) as [H | H];
    destruct (Z.eqb_spec (y mod k) 0) as [H' | H']; try reflexivity.
  - exfalso. apply H'. apply Z.mod_divide; [lia |].
    apply Z.rem_divide; [lia | exact H].
  - exfalso. apply H. apply Z.rem_divide; [lia |].
    apply Z.mod_divide; [lia | exact H'].
Qed.

Lemma daysSinceEpoch_next y :
  Time.daysSinceEpoch (y + 1) =
  Time.daysSinceEpoch y + 365 + (if Time.isLeap y then 1 else 0).
Proof.
  unfold Time.daysSinceEpoch, Time.isLeap. cbv zeta.
  replace (y + 1 - 1) with y by lia.
  rewrite !rem_zero by lia.
  rewrite (div_step 4 y), (div_step 100 y), (div_step 400 y) by lia.
  assert (H100 : y mod 100 = 0 -> y mod 4 = 0).
  { intros H. apply Z.mod_divide in H; [| lia]. apply Z.mod_divide; [lia |].
    apply Z.divide_trans with 100; [exists 25; reflexivity | exact H]. }
  assert (H400 : y mod 400 = 0 -> y mod 100 = 0).
  { intros H. apply Z.mod_divide in H; [| lia]. apply Z.mod_divide; [lia |].
    apply Z.divide_trans with 400; [exists 4; reflexivity | exact H]. }
  destruct (Z.eqb_spec (y mod 4) 0); destruct (Z.eqb_spec (y mod 100) 0);
    destruct (Z.eqb_spec (y mod 400) 0); simpl; try lia;
    try (exfalso; tauto).
Qed.

Lemma getCompareDate_year Local now path baseLen py :
  roomy baseLen ->
  Z.of_nat (length (Strings.Split path PathSeparator)) = baseLen + 2 ->
  Strings.Split path PathSeparator !! Z.to_nat (baseLen + 1) = Some py ->
  getCompareDate Local now path baseLen =
  Some (Time.Add (Time.Date (GoInt.add (pieceValue py) 1) 0 0 0 0 0 0 Local)
                 (GoInt.mul (-1) Time.Second)).
Proof.
  intros Hb Hlen Hy. unfold getCompareDate.
  rewrite !(roomy_add baseLen) by (assumption || lia).
  assert (Hr : forall k, 0 <= k <= 6 -> 0 <= baseLen + k <= GoInt.maxInt)
    by (unfold roomy, GoInt.maxInt in *; lia).
  rewrite (getDatePiece_lookup _ _ _ _ (Hr 1 ltac:(lia)) Hy).
  rewrite Hlen.
  repeat match goal with
         | |- context [?a <? ?b] => destruct (Z.ltb_spec a b); try lia
         end.
  reflexivity.
Qed.

Lemma getCompareDate_month Local now path baseLen py pm :
  roomy baseLen ->
  Z.of_nat (length (Strings.Split path PathSeparator)) = baseLen + 3 ->
  Strings.Split path PathSeparator !! Z.to_nat (baseLen + 1) = Some py ->
  Strings.Split path PathSeparator !! Z.to_nat (baseLen + 2) = Some pm ->
  getCompareDate Local now path baseLen =
  Some (Time.Add (Time.Date (pieceValue py) (GoInt.add (pieceValue pm) 1) 0 0 0 0 0 Local)
                 (GoInt.mul (-1) Time.Second)).
Proof.
  intros Hb Hlen Hy Hm. unfold getCompareDate.
  rewrite !(roomy_add baseLen) by (assumption || lia).
  assert (Hr : forall k, 0 <= k <= 6 -> 0 <= baseLen + k <= GoInt.maxInt)
    by (unfold roomy, GoInt.maxInt in *; lia).
  rewrite (getDatePiece_lookup _ _ _ _ (Hr 1 ltac:(lia)) Hy).
  rewrite (getDatePiece_lookup _ _ _ _ (Hr 2 ltac:(lia)) Hm).
  rewrite Hlen.
  repeat match goal with
         | |- context [?a <? ?b] => destruct (Z.ltb_spec a b); try lia
         end.
  reflexivity.
Qed.

(** Whatever the year, month 0 and day 0 of a year lie 32 days before
    its first of January. *)
Lemma Date_month0_day0 year loc :
  Time.Date year 0 0 0 0 0 0 loc =
  Time.Date year 1 1 0 0 0 0 loc - 32 * 86400 * 1000000000.
Proof.
  rewrite !Date_linear. unfold monthStart.
  change ((0 - 1) / 12) with (-1). change ((0 - 1) mod 12 + 1) with 12.
  change ((1 - 1) / 12) with 0. change ((1 - 1) mod 12 + 1) with 1.
  replace (year + 0) with (year - 1 + 1) by lia.
  rewrite daysSinceEpoch_next. replace (year + -1) with (year - 1) by lia.
  rewrite andb_false_r, andb_true_r.
  change (Time.daysBefore (12 - 1)) with 334.
  change (Time.daysBefore (1 - 1)) with 0.
  destruct (Time.isLeap (year - 1)); lia.
Qed.

(** For every year-only path the boundary that [getCompareDate] returns
    is 32 days before the last second of the year. *)
Lemma year_boundary_32_days_early Local now path baseLen py :
  roomy baseLen ->
  Z.of_nat (length (Strings.Split path PathSeparator)) = baseLen + 2 ->
  Strings.Split path PathSeparator !! Z.to_nat (baseLen + 1) = Some py ->
  getCompareDate Local now path baseLen =
  Some (Time.Add (Time.Date (GoInt.add (pieceValue py) 1) 1 1 0 0 0 0 Local)
                 (- Time.Second)
        - 32 * 86400 * Time.Second).
Proof.
  intros Hb Hlen Hy.
  rewrite (getCompareDate_year Local now path baseLen py Hb Hlen Hy).
  rewrite Date_month0_day0, minus_one_second.
  unfold Time.Add, Time.Second. apply f_equal. lia.
Qed.

(** For every year and month path the boundary that [getCompareDate]
    returns is one day before the last second of the month. *)
Lemma month_boundary_one_day_early Local now path baseLen py pm :
  roomy baseLen ->
  Z.of_nat (length (Strings.Split path PathSeparator)) = baseLen + 3 ->
  Strings.Split path PathSeparator !! Z.to_nat (baseLen + 1) = Some py ->
  Strings.Split path PathSeparator !! Z.to_nat (baseLen + 2) = Some pm ->
  getCompareDate Local now path baseLen =
  Some (Time.Add (Time.Date (pieceValue py) (GoInt.add (pieceValue pm) 1) 1
                            0 0 0 0 Local) (- Time.Second)
        - 86400 * Time.Second).
Proof.
  intros Hb Hlen Hy Hm.
  rewrite (getCompareDate_month Local now path baseLen py pm Hb Hlen Hy Hm).
  rewrite !Date_linear, minus_one_second.
  unfold Time.Add, Time.Second. apply f_equal. lia.
Qed.

Lemma pieceValue_inRange piece : GoInt.inRange (pieceValue piece).
Proof.
  unfold pieceValue. destruct (Strconv.ParseInt piece) as [v | e] eqn:E.
  - now apply ParseInt_spec in E.
  - unfold GoInt.inRange, GoInt.minInt, GoInt.maxInt. lia.
Qed.

Lemma pieceValue_parsed piece v :
  Strconv.ParseInt piece = inl v -> pieceValue piece = v.
Proof. unfold pieceValue. now intros ->. Qed.

Lemma succ_small v :
  GoInt.inRange v -> v < GoInt.maxInt -> GoInt.add v 1 = v + 1.
Proof.
  unfold GoInt.inRange. intros H Hlt. apply add_small. lia.
Qed.

Lemma visit_keeps Local tick deleteTime baseLen path info w c :
  Os.IsDir info = true ->
  getCompareDate Local (clock w) path baseLen = Some c ->
  Time.Before c deleteTime = false ->
  visit Local tick deleteTime baseLen path (Some info) None w
  = (elapse tick w, [WalkFound path; DirTime c deleteTime], None).
Proof. intros Hd Hg Hk. unfold visit. rewrite Hd, Hg, Hk. reflexivity. Qed.

Lemma visit_removes Local tick deleteTime baseLen path info w c fs' :
  Os.IsDir info = true ->
  getCompareDate Local (clock w) path baseLen = Some c ->
  Time.Before c deleteTime = true ->
  Os.RemoveAll (fs w) path = (fs', None) ->
  visit Local tick deleteTime baseLen path (Some info) None w
  = ({| fs := fs'; clock := tick (clock w) |},
     [WalkFound path; DirTime c deleteTime; Removing path; OsRemoveAll path],
     None).
Proof.
  intros Hd Hg Hk Hr. unfold visit. rewrite Hd, Hg, Hk, Hr. reflexivity.
Qed.

(** C2, amended. In the scenario of the specification, with now =
    2024-03-15T00:00:00Z and 30 days of retention, the deletion time is
    2024-02-14T00:00:00Z. A year/month/day directory whose date pieces
    read 2024, 3 and 10 has the boundary 2024-03-10T23:59:59Z, which is
    not before the deletion time: the visit keeps it, removes nothing and
    returns nil, so the walk descends into it. The same holds for
    2024, 3 and 14 with the boundary 2024-03-14T23:59:59Z. *)
Theorem C2_scenario_days_are_kept tick path baseLen py pm pd day w :
  roomy baseLen ->
  Z.of_nat (length (Strings.Split path PathSeparator)) = baseLen + 4 ->
  Strings.Split path PathSeparator !! Z.to_nat (baseLen + 1) = Some py ->
  Strings.Split path PathSeparator !! Z.to_nat (baseLen + 2) = Some pm ->
  Strings.Split path PathSeparator !! Z.to_nat (baseLen + 3) = Some pd ->
  pieceValue py = 2024 -> pieceValue pm = 3 -> pieceValue pd = day ->
  day = 10 \/ day = 14 ->
  Scenario.cutoff = Scenario.instant 2024 2 14 0 0 0 /\
  getCompareDate Time.UTC (clock w) path baseLen
    = Some (Scenario.instant 2024 3 day 23 59 59) /\
  Time.Before (Scenario.instant 2024 3 day 23 59 59) Scenario.cutoff = false /\
  visit Time.UTC tick Scenario.cutoff baseLen path
        (Some Scenario.isDirectory) None w
    = (elapse tick w,
       [WalkFound path;
        DirTime (Scenario.instant 2024 3 day 23 59 59) Scenario.cutoff],
       None).
Proof.
  intros Hb Hlen Hy Hm Hd Ey Em Ed Hday.
  assert (Hg : getCompareDate Time.UTC (clock w) path baseLen
               = Some (Scenario.instant 2024 3 day 23 59 59)).
  { rewrite (getCompareDate_day Time.UTC (clock w) path baseLen py pm pd
               Hb Hlen Hy Hm Hd).
    rewrite Ey, Em, Ed. destruct Hday as [-> | ->]; vm_compute; reflexivity. }
  assert (Hk : Time.Before (Scenario.instant 2024 3 day 23 59 59)
                           Scenario.cutoff = false).
  { destruct Hday as [-> | ->]; vm_compute; reflexivity. }
  split; [vm_compute; reflexivity |].
  split; [exact Hg |]. split; [exact Hk |].
  now apply visit_keeps.
Qed.

Lemma C2_scenario_days_are_kept_witness :
  Scenario.cutoff = Scenario.instant 2024 2 14 0 0 0 /\
  getCompareDate Time.UTC (clock Scenario.idle) "/data/acme/x/2024/03/10" 3
    = Some (Scenario.instant 2024 3 10 23 59 59) /\
  Time.Before (Scenario.instant 2024 3 10 23 59 59) Scenario.cutoff = false /\
  visit Time.UTC Scenario.microsecond Scenario.cutoff 3
        "/data/acme/x/2024/03/10" (Some Scenario.isDirectory) None
        Scenario.idle
    = (elapse Scenario.microsecond Scenario.idle,
       [WalkFound "/data/acme/x/2024/03/10";
        DirTime (Scenario.instant 2024 3 10 23 59 59) Scenario.cutoff],
       None).
Proof.
  apply (C2_scenario_days_are_kept Scenario.microsecond
           "/data/acme/x/2024/03/10" 3 "2024" "03" "10" 10 Scenario.idle).
  - unfold roomy, GoInt.maxInt. lia.
  - vm_compute; reflexivity.
  - vm_compute; reflexivity.
  - vm_compute; reflexivity.
  - vm_compute; reflexivity.
  - vm_compute; reflexivity.
  - vm_compute; reflexivity.
  - vm_compute; reflexivity.
  - left. reflexivity.
Defined.

(** C2, as the specification words it, fails. Under the tenant root
    /data/acme the pieces of /data/acme/2024/03/10 that [getCompareDate]
    reads as year and month are "03" and "10", so its boundary is in the
    year 3 and not 2024-03-10T23:59:59Z; the boundary the specification
    gives is not before the deletion time 2024-02-14T00:00:00Z and so
    would not lead to a deletion; and the walk of the tenant removes
    /data/acme/2024/03 as a whole, /data/acme/2024/03/14 with it. *)
Lemma C2_counterexample :
  getCompareDate Time.UTC Scenario.now "/data/acme/2024/03/10" 3
    = Some (Scenario.instant 3 10 30 23 59 59) /\
  getCompareDate Time.UTC Scenario.now "/data/acme/2024/03/10" 3
    <> Some (Scenario.instant 2024 3 10 23 59 59) /\
  Time.Before (Scenario.instant 2024 3 10 23 59 59) Scenario.cutoff = false /\
  fs (fst (fst (pruneSingleCompanyDir Time.UTC Scenario.microsecond
                  "/data/acme" Scenario.acme Scenario.now
                  {| fs := [("/data", Scenario.directory);
                            ("/data/acme", Scenario.directory);
                            ("/data/acme/2024", Scenario.directory);
                            ("/data/acme/2024/03", Scenario.directory);
                            ("/data/acme/2024/03/10", Scenario.directory);
                            ("/data/acme/2024/03/14", Scenario.directory)];
                     clock := Scenario.now |})))
    = [("/data", Scenario.directory);
       ("/data/acme", Scenario.directory);
       ("/data/acme/2024", Scenario.directory)].
Proof.
  split; [vm_compute; reflexivity |].
  split; [vm_compute; discriminate |].
  split; vm_compute; reflexivity.
Qed.

(** C4. The code departs from this claim. A month that is added to a
    year path, and a day that is added to a year and month path, can give
    a boundary later than the one of the shorter path, because the
    boundaries of the year and of the month are too early: the year 2023
    has the boundary 2023-11-29T23:59:59Z and its month 12 the boundary
    2023-12-30T23:59:59Z; the month 2024/03 has the boundary
    2024-03-30T23:59:59Z and its day 31 the boundary
    2024-03-31T23:59:59Z. *)
Theorem C4_finer_boundary_after_coarser :
  getCompareDate Time.UTC Scenario.now "/data/acme/x/2023" 3
    = Some (Scenario.instant 2023 11 29 23 59 59) /\
  getCompareDate Time.UTC Scenario.now "/data/acme/x/2023/12" 3
    = Some (Scenario.instant 2023 12 30 23 59 59) /\
  Scenario.instant 2023 11 29 23 59 59 < Scenario.instant 2023 12 30 23 59 59 /\
  getCompareDate Time.UTC Scenario.now "/data/acme/x/2024/03" 3
    = Some (Scenario.instant 2024 3 30 23 59 59) /\
  getCompareDate Time.UTC Scenario.now "/data/acme/x/2024/03/31" 3
    = Some (Scenario.instant 2024 3 31 23 59 59) /\
  Scenario.instant 2024 3 30 23 59 59 < Scenario.instant 2024 3 31 23 59 59.
Proof.
  split; [vm_compute; reflexivity |].
  split; [vm_compute; reflexivity |].
  split; [vm_compute; reflexivity |].
  split; [vm_compute; reflexivity |].
  split; vm_compute; reflexivity.
Qed.

Lemma inCalendar_piece pathArray baseLen k lo hi piece :
  inCalendar pathArray baseLen = true ->
  In (k, lo, hi) [(1, 0, 9999); (2, 1, 12); (3, 1, 31); (4, 0, 23); (5, 0, 59)] ->
  pathArray !! Z.to_nat (baseLen + k) = Some piece ->
  lo <= pieceValue piece <= hi.
Proof.
  unfold inCalendar. intros H Hin Hl.
  rewrite forallb_forall in H. specialize (H _ Hin). cbn beta iota in H.
  rewrite Hl in H. apply andb_true_iff in H as [H1 H2].
  apply Z.leb_le in H1, H2. lia.
Qed.

(** The steps from the day to the hour and from the hour to the minute
    do what the steps from the year and from the month miss. For a path
    whose pieces read as a date of the years 0 to 9999, appending an hour
    that reads 0..23 to a year/month/day path, or a minute that reads
    0..59 to a year/month/day/hour path, gives a boundary that is not
    later than the boundary of the shorter path and not before the start
    of the day, respectively of the hour, that the shorter path stands
    for. *)
Lemma hour_and_minute_boundaries_nest Local now path seg baseLen v :
  roomy baseLen ->
  Strings.free_of PathSeparator seg = true ->
  Strconv.ParseInt seg = inl v ->
  inCalendar (Strings.Split path PathSeparator) baseLen = true ->
  (Z.of_nat (length (Strings.Split path PathSeparator)) = baseLen + 4 /\
   0 <= v <= 23) \/
  (Z.of_nat (length (Strings.Split path PathSeparator)) = baseLen + 5 /\
   0 <= v <= 59) ->
  exists coarse fine,
    getCompareDate Local now path baseLen = Some coarse /\
    getCompareDate Local now (path +:+ String PathSeparator seg) baseLen
      = Some fine /\
    fine <= coarse /\
    coarse + Time.Second
      - (if Z.of_nat (length (Strings.Split path PathSeparator)) =? baseLen + 4
         then 86400 else 3600) * Time.Second
      <= fine.
Proof.
  intros Hb Hfree Hparse Hcal Hcase.
  set (pathArray := Strings.Split path PathSeparator) in *.
  pose proof (Split_append_segment path seg Hfree) as Hsplit.
  fold pathArray in Hsplit.
  assert (Hv : pieceValue seg = v) by now apply pieceValue_parsed.
  assert (Hlook : forall k, (Z.to_nat (baseLen + k) < length pathArray)%nat ->
            exists piece, pathArray !! Z.to_nat (baseLen + k) = Some piece /\
              (pathArray ++ [seg]) !! Z.to_nat (baseLen + k) = Some piece).
  { intros k Hk. destruct (lookup_lt_is_Some_2 pathArray _ Hk) as [piece Hp].
    exists piece. split; [exact Hp |]. now rewrite lookup_app_l. }
  assert (Hnew : (pathArray ++ [seg]) !! length pathArray = Some seg).
  { now apply list_lookup_middle. }
  unfold roomy, GoInt.maxInt in Hb.
  destruct Hcase as [[Hlen Hr] | [Hlen Hr]].
  - destruct (Hlook 1 ltac:(lia)) as (py & Hy & Hy').
    destruct (Hlook 2 ltac:(lia)) as (pm & Hm & Hm').
    destruct (Hlook 3 ltac:(lia)) as (pd & Hd & Hd').
    assert (Hdlt : pieceValue pd < GoInt.maxInt).
    { pose proof (inCalendar_piece pathArray baseLen 3 1 31 pd Hcal
                    ltac:(simpl; auto) Hd).
      unfold GoInt.maxInt. lia. }
    replace (length pathArray) with (Z.to_nat (baseLen + 4)) in Hnew by lia.
    eexists _, _. split; [| split].
    + apply (getCompareDate_day Local now path baseLen py pm pd); auto;
        unfold roomy, GoInt.maxInt; lia.
    + apply (getCompareDate_hour Local now _ baseLen py pm pd seg);
        rewrite ?Hsplit; auto; try (unfold roomy, GoInt.maxInt; lia);
        rewrite length_app; simpl; fold pathArray; lia.
    + rewrite Hv, Hlen, Z.eqb_refl.
      rewrite (succ_small (pieceValue pd)) by (auto using pieceValue_inRange).
      rewrite (succ_small v)
        by (unfold GoInt.inRange, GoInt.minInt, GoInt.maxInt; lia).
      rewrite !Date_linear, minus_one_second. unfold Time.Add, Time.Second. lia.
  - destruct (Hlook 1 ltac:(lia)) as (py & Hy & Hy').
    destruct (Hlook 2 ltac:(lia)) as (pm & Hm & Hm').
    destruct (Hlook 3 ltac:(lia)) as (pd & Hd & Hd').
    destruct (Hlook 4 ltac:(lia)) as (ph & Hh & Hh').
    assert (Hhlt : pieceValue ph < GoInt.maxInt).
    { pose proof (inCalendar_piece pathArray baseLen 4 0 23 ph Hcal
                    ltac:(simpl; auto) Hh).
      unfold GoInt.maxInt. lia. }
    replace (length pathArray) with (Z.to_nat (baseLen + 5)) in Hnew by lia.
    eexists _, _. split; [| split].
    + apply (getCompareDate_hour Local now path baseLen py pm pd ph); auto;
        unfold roomy, GoInt.maxInt; lia.
    + apply (getCompareDate_minute Local now _ baseLen py pm pd ph seg);
        rewrite ?Hsplit; auto; try (unfold roomy, GoInt.maxInt; lia);
        rewrite length_app; simpl; fold pathArray; lia.
    + rewrite Hv, Hlen.
      destruct (Z.eqb_spec (baseLen + 5) (baseLen + 4)); [lia |].
      rewrite (succ_small (pieceValue ph)) by (auto using pieceValue_inRange).
      rewrite (succ_small v)
        by (unfold GoInt.inRange, GoInt.minInt, GoInt.maxInt; lia).
      rewrite !Date_linear, minus_one_second. unfold Time.Add, Time.Second. lia.
Qed.

Lemma hour_and_minute_boundaries_nest_example :
  exists coarse fine,
    getCompareDate Time.UTC Scenario.now "/data/acme/x/2024/03/10" 3
      = Some coarse /\
    getCompareDate Time.UTC Scenario.now
      ("/data/acme/x/2024/03/10" +:+ String PathSeparator "07") 3
      = Some fine /\
    fine <= coarse /\
    coarse + Time.Second
      - (if Z.of_nat (length (Strings.Split "/data/acme/x/2024/03/10"
                                            PathSeparator)) =? 3 + 4
         then 86400 else 3600) * Time.Second
      <= fine.
Proof.
  apply (hour_and_minute_boundaries_nest Time.UTC Scenario.now
           "/data/acme/x/2024/03/10" "07" 3 7).
  - unfold roomy, GoInt.maxInt. lia.
  - vm_compute; reflexivity.
  - vm_compute; reflexivity.
  - vm_compute; reflexivity.
  - left. split; [vm_compute; reflexivity | lia].
Defined.

(** A segment is used as the number it reads, whatever its range, and
    [time.Date] carries what is too much: the hour "24" under
    2024/03/10 gives 2024-03-11T00:59:59Z, later than the boundary
    2024-03-10T23:59:59Z of the day; the hour "-2" gives
    2024-03-09T22:59:59Z, before the day begins. *)
Lemma segments_out_of_range_are_carried :
  getCompareDate Time.UTC Scenario.now "/data/acme/x/2024/03/10" 3
    = Some (Scenario.instant 2024 3 10 23 59 59) /\
  getCompareDate Time.UTC Scenario.now "/data/acme/x/2024/03/10/24" 3
    = Some (Scenario.instant 2024 3 11 0 59 59) /\
  Scenario.instant 2024 3 10 23 59 59 < Scenario.instant 2024 3 11 0 59 59 /\
  getCompareDate Time.UTC Scenario.now "/data/acme/x/2024/03/10/-2" 3
    = Some (Scenario.instant 2024 3 9 22 59 59) /\
  Scenario.instant 2024 3 9 22 59 59 < Scenario.instant 2024 3 10 0 0 0.
Proof.
  split; [vm_compute; reflexivity |].
  split; [vm_compute; reflexivity |].
  split; [vm_compute; reflexivity |].
  split; vm_compute; reflexivity.
Qed.

Lemma prune_blocks Local tick fileName config currTime w days :
  Strconv.ParseInt (Retention config) = inl days ->
  blocks Local
         (Time.AddDate Time.UTC currTime 0 0 (GoInt.mul (-1) days))
         (Z.of_nat (length (Strings.Split fileName PathSeparator)))
         (snd (fst (pruneSingleCompanyDir Local tick fileName config currTime w))).
Proof.
  intros Hp. unfold pruneSingleCompanyDir. rewrite Hp.
  destruct (Walk _ fileName w) as [[w1 t1] err] eqn:E.
  apply Walk_blocks in E.
  destruct err as [[] |]; simpl; try exact E;
    (apply blocks_app; [exact E | apply blocks_one; constructor]).
Qed.

(** C5. In the walk of a tenant, every directory of the table that the
    function literal visits without being handed an error has its date
    compared with the deletion time of the tenant, and [os.RemoveAll] is
    called on it if and only if the date is strictly before the deletion
    time; a directory whose date equals the deletion time or is after it
    is kept. [os.RemoveAll] is called nowhere else; a call that does not
    fail leaves nothing of the directory in the table, and what lies
    under no directory it was called on is in the table as it was. *)
Theorem C5_delete_iff_boundary_before_cutoff
    Local tick fileName config currTime w days :
  Strconv.ParseInt (Retention config) = inl days ->
  roomy (Z.of_nat (length (Strings.Split fileName PathSeparator))) ->
  decidesByBoundary Local
    (Z.of_nat (length (Strings.Split fileName PathSeparator)))
    (Time.AddDate Time.UTC currTime 0 0 (GoInt.mul (-1) days))
    (snd (fst (pruneSingleCompanyDir Local tick fileName config currTime w))) /\
  comparesEveryDirectory (fs w)
    (Time.AddDate Time.UTC currTime 0 0 (GoInt.mul (-1) days))
    (snd (fst (pruneSingleCompanyDir Local tick fileName config currTime w))) /\
  keepsTheRest w
    (snd (fst (pruneSingleCompanyDir Local tick fileName config currTime w)))
    (fst (fst (pruneSingleCompanyDir Local tick fileName config currTime w))) /\
  removesForGood
    (snd (fst (pruneSingleCompanyDir Local tick fileName config currTime w)))
    (fst (fst (pruneSingleCompanyDir Local tick fileName config currTime w))).
Proof.
  intros Hp Hroomy.
  pose proof (prune_blocks Local tick fileName config currTime w days Hp) as Hb.
  destruct (prune_sweeps Local tick fileName config currTime w days Hp Hroomy)
    as (_ & Hkeep & Hcompare & Hgone & _).
  split; [split |].
  - intros pre c d post E. eapply blocks_DirTime; eauto.
  - intros pre p post E. eapply blocks_OsRemoveAll; eauto.
  - split; [exact Hcompare | split; [exact Hkeep | exact Hgone]].
Qed.

Lemma C5_delete_iff_boundary_before_cutoff_witness :
  decidesByBoundary Time.UTC
    (Z.of_nat (length (Strings.Split "/data/acme" PathSeparator)))
    (Time.AddDate Time.UTC Scenario.now 0 0 (GoInt.mul (-1) 30))
    (snd (fst (pruneSingleCompanyDir Time.UTC Scenario.microsecond
                 "/data/acme" Scenario.acme Scenario.now Scenario.acmeWorld))) /\
  comparesEveryDirectory (fs Scenario.acmeWorld)
    (Time.AddDate Time.UTC Scenario.now 0 0 (GoInt.mul (-1) 30))
    (snd (fst (pruneSingleCompanyDir Time.UTC Scenario.microsecond
                 "/data/acme" Scenario.acme Scenario.now Scenario.acmeWorld))) /\
  keepsTheRest Scenario.acmeWorld
    (snd (fst (pruneSingleCompanyDir Time.UTC Scenario.microsecond
                 "/data/acme" Scenario.acme Scenario.now Scenario.acmeWorld)))
    (fst (fst (pruneSingleCompanyDir Time.UTC Scenario.microsecond
                 "/data/acme" Scenario.acme Scenario.now Scenario.acmeWorld))) /\
  removesForGood
    (snd (fst (pruneSingleCompanyDir Time.UTC Scenario.microsecond
                 "/data/acme" Scenario.acme Scenario.now Scenario.acmeWorld)))
    (fst (fst (pruneSingleCompanyDir Time.UTC Scenario.microsecond
                 "/data/acme" Scenario.acme Scenario.now Scenario.acmeWorld))).
Proof.
  apply (C5_delete_iff_boundary_before_cutoff Time.UTC Scenario.microsecond
           "/data/acme" Scenario.acme Scenario.now Scenario.acmeWorld 30).
  - vm_compute; reflexivity.
  - split; vm_compute; intros X; discriminate X.
Defined.

(** C6, amended. When the visit of a directory removes it, the
    function literal returns nil and not [filepath.SkipDir]: the walk
    goes on with the names it read from the directory before the visit.
    Each of them is looked up, is no longer found, and is handed to the
    function literal with that error, which is logged and ignored.
    Nothing below those names is visited, nothing more is removed, and
    the walk of the directory ends without an error. *)
Theorem C6_walk_reports_children_of_removed_directory
    Local tick deleteTime baseLen fuel path info w names c fs' :
  path <> EmptyString ->
  Os.IsDir info = true ->
  readDirNames w path = inl names ->
  getCompareDate Local (clock w) path baseLen = Some c ->
  c < deleteTime ->
  Os.RemoveAll (fs w) path = (fs', None) ->
  walk (visit Local tick deleteTime baseLen) (S fuel) path info w
  = ({| fs := fs'; clock := tick (clock w) |},
     [WalkFound path; DirTime c deleteTime; Removing path; OsRemoveAll path]
     ++ flat_map (fun name => reported (Filepath.Join path name) ENOENT) names,
     None).
Proof.
  intros Hne Hdir Hnames Hc Hlt Hrm.
  cbn [walk]. rewrite Hdir, Hnames. cbn [negb].
  rewrite (visit_removes Local tick deleteTime baseLen path info w c fs'
             Hdir Hc ltac:(unfold Time.Before; now apply Z.ltb_lt) Hrm).
  rewrite walkNames_vanished; [reflexivity |].
  intros name _. cbn [fs]. eapply RemoveAll_gone; eauto.
Qed.

Lemma C6_walk_reports_children_of_removed_directory_witness :
  walk (visit Time.UTC Scenario.microsecond Scenario.cutoff 3) (S 5)
       "/data/acme/x/2023" Scenario.isDirectory Scenario.acmeWorld
  = ({| fs := Scenario.acmeTreePruned;
        clock := Scenario.microsecond (clock Scenario.acmeWorld) |},
     [WalkFound "/data/acme/x/2023";
      DirTime (Scenario.instant 2023 11 29 23 59 59) Scenario.cutoff;
      Removing "/data/acme/x/2023"; OsRemoveAll "/data/acme/x/2023"]
     ++ flat_map
          (fun name => reported (Filepath.Join "/data/acme/x/2023" name) ENOENT)
          ["12"],
     None).
Proof.
  apply (C6_walk_reports_children_of_removed_directory
           Time.UTC Scenario.microsecond Scenario.cutoff 3 5
           "/data/acme/x/2023" Scenario.isDirectory Scenario.acmeWorld
           ["12"] (Scenario.instant 2023 11 29 23 59 59)
           Scenario.acmeTreePruned).
  - discriminate.
  - reflexivity.
  - vm_compute; reflexivity.
  - vm_compute; reflexivity.
  - vm_compute; reflexivity.
  - vm_compute; reflexivity.
Defined.

(** With the older order of [walk] the removed directory is not left
    alone either: its names can no longer be read, and the directory is
    handed to the function literal once more, with that error. *)
Lemma legacy_walk_returns_to_removed_directory :
  walkLegacy (visit Time.UTC Scenario.microsecond Scenario.cutoff 3) 6
             "/data/acme/x/2023" Scenario.isDirectory Scenario.acmeWorld
  = ({| fs := Scenario.acmeTreePruned;
        clock := Scenario.microsecond Scenario.now |},
     [WalkFound "/data/acme/x/2023";
      DirTime (Scenario.instant 2023 11 29 23 59 59) Scenario.cutoff;
      Removing "/data/acme/x/2023"; OsRemoveAll "/data/acme/x/2023";
      WalkFound "/data/acme/x/2023";
      ErrorInPath "/data/acme/x/2023" ENOENT],
     None).
Proof. vm_compute; reflexivity. Qed.

(** C6, as the specification words it, fails: in the walk of the tenant
    acme the directory /data/acme/x/2023 is removed, and right after
    that the walk turns to its child /data/acme/x/2023/12, calls the
    function literal on it and logs the error of the lookup. *)
Lemma C6_counterexample :
  exists pre post,
    snd (fst (pruneSingleCompanyDir Time.UTC Scenario.microsecond
                "/data/acme" Scenario.acme Scenario.now Scenario.acmeWorld))
    = pre ++ [Removing "/data/acme/x/2023"; OsRemoveAll "/data/acme/x/2023";
              WalkFound "/data/acme/x/2023/12";
              ErrorInPath "/data/acme/x/2023/12" ENOENT] ++ post.
Proof.
  exists (firstn 6 (snd (fst (pruneSingleCompanyDir Time.UTC
            Scenario.microsecond "/data/acme" Scenario.acme Scenario.now
            Scenario.acmeWorld)))),
         (skipn 10 (snd (fst (pruneSingleCompanyDir Time.UTC
            Scenario.microsecond "/data/acme" Scenario.acme Scenario.now
            Scenario.acmeWorld)))).
  vm_compute; reflexivity.
Qed.

(** ** Goroutines one after the other *)

Lemma runAll_app Local tick before after currTime w :
  runAll Local tick (before ++ after) currTime w =
  let '(w1, t1, o1) := runAll Local tick before currTime w in
  match o1 with
  | Crashed => (w1, t1, Crashed)
  | Returned =>
      let '(w2, t2, o2) := runAll Local tick after currTime w1 in
      (w2, t1 ++ t2, o2)
  end.
Proof.
  revert w. induction before as [| t rest IH]; intros w; cbn [runAll app].
  - now destruct (runAll Local tick after currTime w) as [[w2 t2] o2].
  - destruct (pruneSingleCompanyDir Local tick (taskDir t) (taskConfig t)
                                    currTime w) as [[w1 t1] o1].
    destruct o1; [| reflexivity].
    rewrite IH.
    destruct (runAll Local tick rest currTime w1) as [[w2 t2] o2].
    destruct o2; [| reflexivity].
    destruct (runAll Local tick after currTime w2) as [[w3 t3] o3].
    now rewrite app_assoc.
Qed.

Lemma prune_skips Local tick fileName config currTime w e :
  Strconv.ParseInt (Retention config) = inr e ->
  pruneSingleCompanyDir Local tick fileName config currTime w
  = (w, [RetentionNotNumber (Retention config) (Name config) (Id config)],
     Returned).
Proof. intros H. unfold pruneSingleCompanyDir. now rewrite H. Qed.

(** C7. A tenant whose retention string does not parse is
    given up before its walk begins: its goroutine leaves the table as it
    is, calls [os.RemoveAll] on nothing and logs the one error. The other
    goroutines are not touched by it: with the goroutine of that tenant
    anywhere among them, the world they leave and the way they end are
    what they are without it, and the trace is the same but for the one
    logged error. *)
Theorem C7_unparsable_retention_skips_only_that_tenant
    Local tick fileName config currTime e :
  Strconv.ParseInt (Retention config) = inr e ->
  (forall w,
     pruneSingleCompanyDir Local tick fileName config currTime w
     = (w, [RetentionNotNumber (Retention config) (Name config) (Id config)],
        Returned)) /\
  (forall before after w,
     exists w' ta tb o,
       runAll Local tick (before ++ after) currTime w = (w', ta ++ tb, o) /\
       (runAll Local tick
               (before ++ {| taskDir := fileName; taskConfig := config |}
                       :: after) currTime w
        = (w', ta ++ RetentionNotNumber (Retention config) (Name config)
                                        (Id config) :: tb, o)
        \/ (o = Crashed /\ tb = [] /\
            runAll Local tick
                   (before ++ {| taskDir := fileName; taskConfig := config |}
                           :: after) currTime w
            = (w', ta, o)))).
Proof.
  intros Hp. split; [intros w; exact (prune_skips _ _ _ _ _ w e Hp) |].
  intros before after w. rewrite !runAll_app.
  destruct (runAll Local tick before currTime w) as [[w1 t1] o1].
  destruct o1.
  - cbn [runAll taskDir taskConfig].
    rewrite (prune_skips Local tick fileName config currTime w1 e Hp).
    destruct (runAll Local tick after currTime w1) as [[w2 t2] o2].
    exists w2, t1, t2, o2. split; [reflexivity | left; reflexivity].
  - exists w1, t1, [], Crashed. rewrite app_nil_r.
    split; [reflexivity | right; auto].
Qed.

Lemma C7_unparsable_retention_skips_only_that_tenant_witness :
  (forall w,
     pruneSingleCompanyDir Time.UTC Scenario.microsecond "/data/bad"
       Scenario.bad Scenario.now w
     = (w, [RetentionNotNumber (Retention Scenario.bad) (Name Scenario.bad)
                               (Id Scenario.bad)],
        Returned)) /\
  (forall before after w,
     exists w' ta tb o,
       runAll Time.UTC Scenario.microsecond (before ++ after) Scenario.now w
       = (w', ta ++ tb, o) /\
       (runAll Time.UTC Scenario.microsecond
               (before ++ {| taskDir := "/data/bad";
                             taskConfig := Scenario.bad |} :: after)
               Scenario.now w
        = (w', ta ++ RetentionNotNumber (Retention Scenario.bad)
                       (Name Scenario.bad) (Id Scenario.bad) :: tb, o)
        \/ (o = Crashed /\ tb = [] /\
            runAll Time.UTC Scenario.microsecond
                   (before ++ {| taskDir := "/data/bad";
                                 taskConfig := Scenario.bad |} :: after)
                   Scenario.now w
            = (w', ta, o)))).
Proof.
  apply (C7_unparsable_retention_skips_only_that_tenant
           Time.UTC Scenario.microsecond "/data/bad" Scenario.bad
           Scenario.now Strconv.ErrSyntax).
  vm_compute; reflexivity.
Defined.

Lemma blocks_not_Retention Local deleteTime baseLen retention name id l :
  ~ blocks Local deleteTime baseLen (RetentionNotNumber retention name id :: l).
Proof.
  intros H. inversion H as [| b l' Hb Hl E]. destruct Hb; discriminate.
Qed.

(** C8, amended. The retention string is read as a signed decimal
    integer. The tenant is given up exactly when the string does not
    write an integer of the [int] range (an optional sign, then decimal
    digits). A string that writes such an integer, negative or not, is
    accepted: the tenant is walked with the deletion time that lies that
    many days before the current time, which for a negative number is in
    the future. *)
Theorem C8_retention_is_any_signed_integer
    Local tick fileName config currTime w :
  (pruneSingleCompanyDir Local tick fileName config currTime w
   = (w, [RetentionNotNumber (Retention config) (Name config) (Id config)],
      Returned)
   <-> ~ exists n, denotesInteger (Retention config) n /\ GoInt.inRange n) /\
  (forall n,
     denotesInteger (Retention config) n -> GoInt.inRange n ->
     pruneSingleCompanyDir Local tick fileName config currTime w
     = let '(w1, t1, err) :=
         Walk (visit Local tick
                 (Time.AddDate Time.UTC currTime 0 0 (GoInt.mul (-1) n))
                 (Z.of_nat (length (Strings.Split fileName PathSeparator))))
              fileName w in
       match err with
       | None => (w1, t1, Returned)
       | Some RuntimePanic => (w1, t1, Crashed)
       | Some e => (w1, t1 ++ [ErrorWalking fileName e], Returned)
       end).
Proof.
  split; [split |].
  - intros Hskip [n [Hn Hr]].
    assert (Hp : Strconv.ParseInt (Retention config) = inl n)
      by now apply ParseInt_spec.
    pose proof (prune_blocks Local tick fileName config currTime w n Hp) as Hb.
    rewrite Hskip in Hb. simpl in Hb.
    now apply blocks_not_Retention in Hb.
  - intros Hno.
    destruct (Strconv.ParseInt (Retention config)) as [n | e] eqn:Hp.
    + exfalso. apply Hno. exists n. now apply ParseInt_spec.
    + now apply (prune_skips Local tick fileName config currTime w e).
  - intros n Hn Hr.
    assert (Hp : Strconv.ParseInt (Retention config) = inl n)
      by now apply ParseInt_spec.
    unfold pruneSingleCompanyDir. now rewrite Hp.
Qed.

(** C8, as the specification words it, fails: the retention "-5" is
    accepted. The deletion time is then five days after the current
    time, the root directory of the tenant is itself older than that,
    and the walk removes the whole tenant. *)
Lemma C8_counterexample :
  Strconv.ParseInt "-5" = inl (-5) /\
  Time.AddDate Time.UTC Scenario.now 0 0 (GoInt.mul (-1) (-5))
    = Scenario.instant 2024 3 20 0 0 0 /\
  pruneSingleCompanyDir Time.UTC Scenario.microsecond "/data/acme"
    {| Id := "acme"; Name := "Acme"; Retention := "-5" |}
    Scenario.now Scenario.acmeWorld
  = ({| fs := [("/data", Scenario.directory)];
        clock := Scenario.microsecond Scenario.now |},
     [WalkFound "/data/acme";
      DirTime Scenario.now (Scenario.instant 2024 3 20 0 0 0);
      Removing "/data/acme"; OsRemoveAll "/data/acme";
      WalkFound "/data/acme/x"; ErrorInPath "/data/acme/x" ENOENT],
     Returned).
Proof.
  split; [vm_compute; reflexivity |].
  split; vm_compute; reflexivity.
Qed.

(** C9, amended. For a base length that is a length, [getCompareDate]
    never panics: every piece it reads is inside the path. A path of
    fewer than [baseLen + 2] pieces is answered with the current instant.
    A piece that does not parse is read as 0, and 0 is then used as the
    year, month, day, hour or minute like any other number. *)
Theorem C9_inference_never_panics Local now path baseLen :
  roomy baseLen ->
  (exists t, getCompareDate Local now path baseLen = Some t) /\
  (Z.of_nat (length (Strings.Split path PathSeparator)) < baseLen + 2 ->
   getCompareDate Local now path baseLen = Some now) /\
  (forall idx piece e,
     0 <= idx <= 5 ->
     Strings.Split path PathSeparator !! Z.to_nat (baseLen + idx) = Some piece ->
     Strconv.ParseInt piece = inr e ->
     getDatePiece (Strings.Split path PathSeparator) baseLen idx = Some 0).
Proof.
  intros Hb. split; [| split].
  - now apply getCompareDate_total.
  - now apply getCompareDate_short.
  - intros idx piece e Hidx Hl Hp.
    rewrite (getDatePiece_lookup _ baseLen idx piece); [| | exact Hl].
    + unfold pieceValue. now rewrite Hp.
    + unfold roomy, GoInt.maxInt in *. lia.
Qed.

Lemma C9_inference_never_panics_witness :
  (exists t, getCompareDate Time.UTC Scenario.now "/data/acme/x/oops" 3
             = Some t) /\
  (Z.of_nat (length (Strings.Split "/data/acme/x/oops" PathSeparator)) < 3 + 2 ->
   getCompareDate Time.UTC Scenario.now "/data/acme/x/oops" 3
   = Some Scenario.now) /\
  (forall idx piece e,
     0 <= idx <= 5 ->
     Strings.Split "/data/acme/x/oops" PathSeparator !! Z.to_nat (3 + idx)
       = Some piece ->
     Strconv.ParseInt piece = inr e ->
     getDatePiece (Strings.Split "/data/acme/x/oops" PathSeparator) 3 idx
       = Some 0).
Proof.
  apply (C9_inference_never_panics Time.UTC Scenario.now "/data/acme/x/oops" 3).
  unfold roomy, GoInt.maxInt. lia.
Defined.

(** C9, as the specification words it, fails: a year that does not parse
    does not lead to the current instant and does not save the
    directory. It is read as the year 0, the boundary of
    /data/acme/x/oops is 0000-11-29T23:59:59Z, which is before the
    deletion time, and the walk of the tenant removes the directory. *)
Lemma C9_counterexample :
  getCompareDate Time.UTC Scenario.now "/data/acme/x/oops" 3
    = Some (Scenario.instant 0 11 29 23 59 59) /\
  getCompareDate Time.UTC Scenario.now "/data/acme/x/oops" 3
    <> Some Scenario.now /\
  Time.Before (Scenario.instant 0 11 29 23 59 59) Scenario.cutoff = true /\
  fs (fst (fst (pruneSingleCompanyDir Time.UTC Scenario.microsecond
                  "/data/acme" Scenario.acme Scenario.now
                  {| fs := [("/data", Scenario.directory);
                            ("/data/acme", Scenario.directory);
                            ("/data/acme/x", Scenario.directory);
                            ("/data/acme/x/oops", Scenario.directory)];
                     clock := Scenario.now |})))
    = [("/data", Scenario.directory);
       ("/data/acme", Scenario.directory);
       ("/data/acme/x", Scenario.directory)].
Proof.
  split; [vm_compute; reflexivity |].
  split; [vm_compute; discriminate |].
  split; vm_compute; reflexivity.
Qed.

(** ** The configuration map *)

Lemma foldl_insert_other (entries : list CompanyConfig) :
  forall (m : gmap string CompanyConfig) key,
  Forall (fun entry => Id entry <> key) entries ->
  foldl (fun configMap entry => <[Id entry := entry]> configMap) m entries
    !! key = m !! key.
Proof.
  induction entries as [| entry rest IH]; intros m key H; simpl.
  - reflexivity.
  - inversion H as [| ? ? Hne Hrest]; subst.
    rewrite IH by exact Hrest. now apply lookup_insert_ne.
Qed.

Lemma companyConfigFor_default config name :
  Forall (fun entry => Id entry <> "default" /\ Id entry <> name)
         (CompanyConfigs config) ->
  companyConfigFor (convertConfigToMap config) name = DefaultConfig config.
Proof.
  intros H. unfold companyConfigFor, convertConfigToMap.
  assert (Hd : Forall (fun entry => Id entry <> "default") (CompanyConfigs config))
    by (eapply Forall_impl; [exact H | simpl; tauto]).
  assert (Hn : Forall (fun entry => Id entry <> name) (CompanyConfigs config))
    by (eapply Forall_impl; [exact H | simpl; tauto]).
  rewrite !foldl_insert_other by assumption.
  rewrite lookup_insert_eq.
  destruct (decide ("default" = name)) as [<- | Hne].
  - now rewrite lookup_insert_eq.
  - rewrite lookup_insert_ne by exact Hne. now rewrite lookup_empty.
Qed.

(** C10, amended. When the retention string of the default entry of
    the configuration is empty (as it is when the entry is absent) and no
    entry of the company list has the id "default", a directory of the
    base directory whose name is the id of no listed company is given the
    default entry. Its empty retention string does not parse, so the
    goroutine of that tenant returns at once: it logs the error, leaves
    the table as it is and does not panic. *)
Theorem C10_no_default_policy_skips_unlisted_tenant
    Local tick config baseDir name currTime w :
  Retention (DefaultConfig config) = "" ->
  Forall (fun entry => Id entry <> "default" /\ Id entry <> name)
         (CompanyConfigs config) ->
  launch (convertConfigToMap config) baseDir
         [{| Os.Name := name; Os.IsDir := true |}]
  = ([CompanyConfigIs (DefaultConfig config)],
     [{| taskDir := Filepath.Join baseDir name;
         taskConfig := DefaultConfig config |}]) /\
  pruneSingleCompanyDir Local tick (Filepath.Join baseDir name)
                        (DefaultConfig config) currTime w
  = (w, [RetentionNotNumber "" (Name (DefaultConfig config))
                            (Id (DefaultConfig config))],
     Returned).
Proof.
  intros Hret Hids. split.
  - cbn [launch Os.IsDir Os.Name].
    now rewrite (companyConfigFor_default config name Hids).
  - rewrite (prune_skips Local tick _ (DefaultConfig config) currTime w
               Strconv.ErrSyntax) by (rewrite Hret; reflexivity).
    now rewrite Hret.
Qed.

Lemma C10_no_default_policy_skips_unlisted_tenant_witness :
  launch (convertConfigToMap Scenario.noDefault) "/data"
         [{| Os.Name := "unknownco"; Os.IsDir := true |}]
  = ([CompanyConfigIs (DefaultConfig Scenario.noDefault)],
     [{| taskDir := Filepath.Join "/data" "unknownco";
         taskConfig := DefaultConfig Scenario.noDefault |}]) /\
  pruneSingleCompanyDir Time.UTC Scenario.microsecond
                        (Filepath.Join "/data" "unknownco")
                        (DefaultConfig Scenario.noDefault)
                        Scenario.now Scenario.acmeWorld
  = (Scenario.acmeWorld,
     [RetentionNotNumber "" (Name (DefaultConfig Scenario.noDefault))
                         (Id (DefaultConfig Scenario.noDefault))],
     Returned).
Proof.
  apply (C10_no_default_policy_skips_unlisted_tenant
           Time.UTC Scenario.microsecond Scenario.noDefault "/data"
           "unknownco" Scenario.now Scenario.acmeWorld).
  - reflexivity.
  - repeat constructor; discriminate.
Defined.

(** C10, as the specification words it, fails: a company of the list may
    itself have the id "default", and [convertConfigToMap] then puts it
    in the place of the default entry. With no default entry in the
    configuration, the unlisted tenant unknownco is given that company's
    seven days and is walked: its old directory is removed. *)
Lemma C10_counterexample :
  DefaultConfig Scenario.shadowedDefault
    = {| Id := ""; Name := ""; Retention := "" |} /\
  companyConfigFor (convertConfigToMap Scenario.shadowedDefault) "unknownco"
    = {| Id := "default"; Name := "Fallback"; Retention := "7" |} /\
  main Time.UTC Scenario.microsecond Scenario.shadowedDefault "/data"
       {| fs := [("/data", Scenario.directory);
                 ("/data/unknownco", Scenario.directory);
                 ("/data/unknownco/x", Scenario.directory);
                 ("/data/unknownco/x/2020", Scenario.directory)];
          clock := Scenario.now |}
  = ({| fs := [("/data", Scenario.directory);
               ("/data/unknownco", Scenario.directory);
               ("/data/unknownco/x", Scenario.directory)];
        clock := Scenario.now + 4000 |},
     [ConfigIs Scenario.shadowedDefault;
      CompanyConfigIs {| Id := "default"; Name := "Fallback"; Retention := "7" |};
      WalkFound "/data/unknownco";
      DirTime (Scenario.now + 1000) (Scenario.instant 2024 3 8 0 0 0);
      WalkFound "/data/unknownco/x";
      DirTime (Scenario.now + 2000) (Scenario.instant 2024 3 8 0 0 0);
      WalkFound "/data/unknownco/x/2020";
      DirTime (Scenario.instant 2020 11 29 23 59 59)
              (Scenario.instant 2024 3 8 0 0 0);
      Removing "/data/unknownco/x/2020"; OsRemoveAll "/data/unknownco/x/2020"],
     ExitOk).
Proof.
  split; [reflexivity |].
  split; vm_compute; reflexivity.
Qed.
